(** * The activist repository of [model/activist.go]

    A shallow embedding of the data-access layer for activist records:
    the Go structures, the SQL text the functions assemble, a small
    relational store that gives that text a meaning, and the Go
    functions themselves written in a state monad over the store.

    Conventions.
    - A Go [int] is a [Z]; the file performs no arithmetic on its
      integers (they are compared, bound as query arguments and copied),
      so no wrap-around can occur.
    - A Go function returning [(T, error)] returns a pair [T * error]
      where [error := option Error] and [None] is [nil].
    - A nil slice is the empty list.
    - The handle [db *sqlx.DB] is the state threaded by the monad [Go];
      a run-time panic (indexing out of range) is an outcome of its own. *)

From Stdlib Require Import ZArith List String Ascii Bool Lia.
From Stdlib Require Import Sorted Permutation OrderedTypeEx.
Import ListNotations.

Local Open Scope string_scope.
Local Open Scope Z_scope.
Local Open Scope list_scope.

(** ** Constant definitions *)

Definition selectUserBaseQuery : string := "
SELECT
  id,
  name,
  email,
  chapter,
  phone,
  location,
  facebook
FROM activists
".

Definition selectUserExtraBaseQuery : string := "
SELECT
  a.id,
  a.name,
  email,
  chapter,
  phone,
  location,
  facebook,
  activist_level,
  exclude_from_leaderboard,
  core_staff,
  global_team_member,
  liberation_pledge,
  MIN(e.date) AS first_event,
  MAX(e.date) AS last_event,
  COUNT(e.id) as total_events
FROM activists a

LEFT JOIN event_attendance ea
  ON ea.activist_id = a.id
 
LEFT JOIN events e
  ON ea.event_id = e.id
".

Definition descOrder : Z := 2.
Definition ascOrder : Z := 1.

(** The two statements that are passed to [Exec] and [NamedExec]. *)
Definition insertActivistStmt : string :=
  "INSERT INTO activists (name) VALUES (?)".

Definition updateActivistStmt : string := "UPDATE activists
SET
  name = :name,
  email = :email,
  chapter = :chapter,
  phone = :phone,
  location = :location,
  facebook = :facebook,
  activist_level = :activist_level,
  exclude_from_leaderboard = :exclude_from_leaderboard,
  core_staff = :core_staff,
  global_team_member = :global_team_member,
  liberation_pledge = :liberation_pledge
WHERE
id = :id".

(** ** Type definitions *)

(** [time.Time]: an instant, as seconds since the epoch. *)
Definition Time : Type := Z.

(** [sql.NullString] *)
Record NullString : Type := { String_ : string; Valid : bool }.

Record User : Type := {
  ID : Z;
  Name : string;
  Email : string;
  Chapter : string;
  Phone : string;
  Location : NullString;
  Facebook : string;
  LiberationPledge : Z
}.

Record UserEventData : Type := {
  FirstEvent : option Time;      (* *time.Time, nil is None *)
  LastEvent : option Time;
  TotalEvents : Z;
  Status : string
}.

Record UserMembershipData : Type := {
  CoreStaff : Z;
  ExcludeFromLeaderboard : Z;
  GlobalTeamMember : Z;
  ActivistLevel : string
}.

(** [UserExtra] embeds the three structures above. *)
Record UserExtra : Type := {
  UserExtra_User : User;
  UserExtra_UserEventData : UserEventData;
  UserExtra_UserMembershipData : UserMembershipData
}.

Module UserJSON.
Record t : Type := {
  ID : Z;
  Name : string;
  Email : string;
  Chapter : string;
  Phone : string;
  Location : string;
  Facebook : string;
  FirstEvent : string;
  LastEvent : string;
  TotalEvents : Z;
  Status : string;
  Core : Z;
  ExcludeFromLeaderboard : Z;
  LiberationPledge : Z;
  GlobalTeamMember : Z;
  ActivistLevel : string
}.
End UserJSON.
Definition UserJSON : Type := UserJSON.t.

Record UserOptionsJSON : Type := {
  opt_Name : string;
  opt_Limit : Z;
  opt_Order : Z
}.

(** Zero values. *)
Definition NullString_zero : NullString := {| String_ := ""; Valid := false |}.
Definition User_zero : User :=
  {| ID := 0; Name := ""; Email := ""; Chapter := ""; Phone := "";
     Location := NullString_zero; Facebook := ""; LiberationPledge := 0 |}.
Definition UserJSON_zero : UserJSON :=
  {| UserJSON.ID := 0; UserJSON.Name := ""; UserJSON.Email := "";
     UserJSON.Chapter := ""; UserJSON.Phone := ""; UserJSON.Location := "";
     UserJSON.Facebook := ""; UserJSON.FirstEvent := "";
     UserJSON.LastEvent := ""; UserJSON.TotalEvents := 0;
     UserJSON.Status := ""; UserJSON.Core := 0;
     UserJSON.ExcludeFromLeaderboard := 0; UserJSON.LiberationPledge := 0;
     UserJSON.GlobalTeamMember := 0; UserJSON.ActivistLevel := "" |}.

(** ** Errors *)

(** A value bound to a placeholder, or given to a format verb. *)
Inductive Arg : Type :=
| ArgString (s : string)
| ArgInt (i : Z).

Inductive Error : Type :=
| errors_New (msg : string)
| errors_Wrapf (cause : Error) (format : string) (args : list Arg)
| sql_ErrNoRows
| sql_ErrTxDone
| driver_ErrBadConn      (* the store could not be reached *)
| mysql_Error.           (* the store rejected the statement *)

Definition errors_Wrap (cause : Error) (msg : string) : Error :=
  errors_Wrapf cause msg [].

Definition error : Type := option Error.

(** ** The relational store *)

(** One row of table [activists]; [location] is the only nullable
    column read by this file. *)
Record Activist : Type := {
  a_id : Z;
  a_name : string;
  a_email : string;
  a_chapter : string;
  a_phone : string;
  a_location : option string;
  a_facebook : string;
  a_activist_level : string;
  a_exclude_from_leaderboard : Z;
  a_core_staff : Z;
  a_global_team_member : Z;
  a_liberation_pledge : Z
}.

Record Event : Type := { e_id : Z; e_date : Time }.

Record EventAttendance : Type := { ea_event_id : Z; ea_activist_id : Z }.

Record Tables : Type := {
  activists : list Activist;
  event_attendance : list EventAttendance;
  events : list Event
}.

(** What lives outside this file: the date layout and [getStatus] are
    defined elsewhere in the package, [Format] belongs to package [time],
    and the column defaults belong to the schema of table [activists]. *)
Class Env : Type := {
  EventDateLayout : string;
  time_Format : Time -> string -> string;
  getStatus : option Time -> option Time -> Z -> string;
  activists_defaults : Activist
}.

(** A call that reached the store. *)
Inductive Op : Type :=
| OpSelect (query : string) (args : list Arg)
| OpBeginx
| OpExec (stmt : string) (args : list Arg)
| OpGet (query : string) (args : list Arg)
| OpCommit
| OpRollback
| OpNamedExec (stmt : string) (arg : UserExtra).

(** The state behind the handle: the committed tables, the tables as the
    open transaction sees them (if one is open), the auto-increment
    counter of [activists], a schedule of injected faults (one flag per
    call that can fail, [true] makes the call fail; an exhausted schedule
    means no fault) and the log of the calls issued so far. *)
Record DB : Type := {
  committed : Tables;
  tx : option Tables;
  auto_increment : Z;
  faults : list bool;
  log : list Op
}.

Definition set_committed (t : Tables) (db : DB) : DB :=
  {| committed := t; tx := tx db; auto_increment := auto_increment db;
     faults := faults db; log := log db |}.
Definition set_tx (o : option Tables) (db : DB) : DB :=
  {| committed := committed db; tx := o; auto_increment := auto_increment db;
     faults := faults db; log := log db |}.
Definition set_auto_increment (n : Z) (db : DB) : DB :=
  {| committed := committed db; tx := tx db; auto_increment := n;
     faults := faults db; log := log db |}.
Definition set_faults (f : list bool) (db : DB) : DB :=
  {| committed := committed db; tx := tx db; auto_increment := auto_increment db;
     faults := f; log := log db |}.
Definition set_log (l : list Op) (db : DB) : DB :=
  {| committed := committed db; tx := tx db; auto_increment := auto_increment db;
     faults := faults db; log := l |}.

(** ** The monad of Go functions that take the handle *)

Inductive Outcome (A : Type) : Type :=
| Returns (a : A) (db : DB)
| Panics (msg : string) (db : DB).
Arguments Returns {A} a db.
Arguments Panics {A} msg db.

Definition Go (A : Type) : Type := DB -> Outcome A.

Definition ret {A : Type} (a : A) : Go A := fun db => Returns a db.

Definition bind {A B : Type} (m : Go A) (k : A -> Go B) : Go B :=
  fun db =>
    match m db with
    | Returns a db' => k a db'
    | Panics msg db' => Panics msg db'
    end.

Definition panic {A : Type} (msg : string) : Go A := fun db => Panics msg db.

Definition get_db : Go DB := fun db => Returns db db.
Definition modify_db (f : DB -> DB) : Go unit := fun db => Returns tt (f db).

Declare Scope go_scope.
Delimit Scope go_scope with go.
Notation "x <- c1 ;; c2" := (bind c1 (fun x => c2))
  (at level 61, c1 at next level, right associativity) : go_scope.
Notation "' pat <- c1 ;; c2" := (bind c1 (fun x => match x with pat => c2 end))
  (at level 61, pat pattern, c1 at next level, right associativity) : go_scope.
Notation "c1 ;;; c2" := (bind c1 (fun _ => c2))
  (at level 61, right associativity) : go_scope.
Local Open Scope go_scope.

(** [len(s)] and [s[i]]. *)
Definition len {A : Type} (s : list A) : Z := Z.of_nat (List.length s).

Definition index {A : Type} (s : list A) (i : Z) : Go A :=
  match (if i <? 0 then None else nth_error s (Z.to_nat i)) with
  | Some x => ret x
  | None => panic "runtime error: index out of range"
  end.

(** ** The SQL this file issues, and its meaning *)

(** The query text is assembled by concatenating literals.  The store
    recognises exactly those literals: [tokens] cuts the text back into
    them, [parse_select] checks the order of the clauses. *)

Inductive Column : Type := col_id | col_name.
Inductive Cmp : Type := cmp_eq | cmp_lt | cmp_gt.

Inductive Token : Type :=
| T_select_user
| T_select_user_extra
| T_where (c : Column) (o : Cmp)
| T_group_by (c : Column)
| T_order_by (c : Column)
| T_desc
| T_limit.

Definition literals : list (string * list Token) :=
  [ (selectUserBaseQuery, [T_select_user]);
    (selectUserExtraBaseQuery, [T_select_user_extra]);
    (" WHERE name = ? ", [T_where col_name cmp_eq]);
    (" ORDER BY name ", [T_order_by col_name]);
    (" WHERE a.id = ? ", [T_where col_id cmp_eq]);
    (" GROUP BY a.id ", [T_group_by col_id]);
    (" WHERE a.name < ? ", [T_where col_name cmp_lt]);
    (" WHERE a.name > ? ", [T_where col_name cmp_gt]);
    (" GROUP BY a.name ORDER BY a.name ",
       [T_group_by col_name; T_order_by col_name]);
    ("desc ", [T_desc]);
    (" LIMIT ? ", [T_limit]) ].

Fixpoint strip_prefix (p s : string) : option string :=
  match p with
  | EmptyString => Some s
  | String c p' =>
      match s with
      | String d s' => if Ascii.eqb c d then strip_prefix p' s' else None
      | EmptyString => None
      end
  end.

Fixpoint first_literal (table : list (string * list Token)) (s : string)
  : option (list Token * string) :=
  match table with
  | [] => None
  | (lit, toks) :: table' =>
      match strip_prefix lit s with
      | Some rest => Some (toks, rest)
      | None => first_literal table' s
      end
  end.

Fixpoint lex (fuel : nat) (s : string) : option (list Token) :=
  match s with
  | EmptyString => Some []
  | _ =>
      match fuel with
      | O => None
      | S fuel' =>
          match first_literal literals s with
          | None => None
          | Some (toks, rest) =>
              match lex fuel' rest with
              | Some ts => Some (toks ++ ts)
              | None => None
              end
          end
      end
  end.

(** Every literal is non-empty, so the length of the text is fuel enough. *)
Definition tokens (s : string) : option (list Token) := lex (String.length s) s.

Record Select : Type := {
  sel_extra : bool;                       (* the joined, aggregated select list *)
  sel_where : option (Column * Cmp);
  sel_group : option Column;
  sel_order : option (Column * bool);     (* the flag is [desc] *)
  sel_limit : bool
}.

Definition parse_select (ts : list Token) : option Select :=
  match ts with
  | [] => None
  | base :: ts =>
      match (match base with
             | T_select_user => Some false
             | T_select_user_extra => Some true
             | _ => None
             end) with
      | None => None
      | Some extra =>
          let '(w, ts) := match ts with
                          | T_where c o :: r => (Some (c, o), r)
                          | _ => (None, ts)
                          end in
          let '(g, ts) := match ts with
                          | T_group_by c :: r => (Some c, r)
                          | _ => (None, ts)
                          end in
          let '(o, ts) := match ts with
                          | T_order_by c :: T_desc :: r => (Some (c, true), r)
                          | T_order_by c :: r => (Some (c, false), r)
                          | _ => (None, ts)
                          end in
          let '(l, ts) := match ts with
                          | T_limit :: r => (true, r)
                          | _ => (false, ts)
                          end in
          match ts with
          | [] => Some {| sel_extra := extra; sel_where := w; sel_group := g;
                          sel_order := o; sel_limit := l |}
          | _ :: _ => None
          end
      end
  end.

(** A row of the FROM clause: an activist and, after the two left joins,
    the event joined to it (NULL when there is none). *)
Abbreviation Row := (Activist * option Event)%type (only parsing).

(** [activists a LEFT JOIN event_attendance ea ON ea.activist_id = a.id
     LEFT JOIN events e ON ea.event_id = e.id] *)
Definition joined (t : Tables) : list Row :=
  flat_map
    (fun a =>
       match filter (fun ea => ea_activist_id ea =? a_id a) (event_attendance t) with
       | [] => [(a, None)]
       | eas =>
           flat_map
             (fun ea =>
                match filter (fun e => e_id e =? ea_event_id ea) (events t) with
                | [] => [(a, None)]
                | es => map (fun e => (a, Some e)) es
                end)
             eas
       end)
    (activists t).

Definition satisfies (o : Cmp) (c : comparison) : bool :=
  match o, c with
  | cmp_eq, Eq => true
  | cmp_lt, Lt => true
  | cmp_gt, Gt => true
  | _, _ => false
  end.

(** Names are compared byte by byte (a binary collation). *)
Definition where_rows (c : Column) (o : Cmp) (v : Arg) (rows : list Row)
  : option (list Row) :=
  match c, v with
  | col_id, ArgInt i =>
      Some (filter (fun r => satisfies o (a_id (fst r) ?= i)) rows)
  | col_name, ArgString s =>
      Some (filter (fun r => satisfies o (String.compare (a_name (fst r)) s)) rows)
  | _, _ => None
  end.

(** A group of rows: the activist of its first row, whose columns stand
    for the group in the select list, and the events of all its rows. *)
Abbreviation Group := (Activist * list (option Event))%type (only parsing).

Definition same_key (c : Column) (a b : Activist) : bool :=
  match c with
  | col_id => a_id a =? a_id b
  | col_name => String.eqb (a_name a) (a_name b)
  end.

Fixpoint add_row (c : Column) (r : Row) (gs : list Group) : list Group :=
  match gs with
  | [] => [(fst r, [snd r])]
  | g :: gs' =>
      if same_key c (fst g) (fst r)
      then (fst g, snd g ++ [snd r]) :: gs'
      else g :: add_row c r gs'
  end.

(** GROUP BY: the groups come in the order of their first rows. *)
Definition group_by (c : Column) (rows : list Row) : list Group :=
  fold_left (fun gs r => add_row c r gs) rows [].

Definition column_leb (c : Column) (a b : Activist) : bool :=
  match c with
  | col_id => a_id a <=? a_id b
  | col_name => String.leb (a_name a) (a_name b)
  end.

Fixpoint insert_by {A : Type} (leb : A -> A -> bool) (x : A) (l : list A) : list A :=
  match l with
  | [] => [x]
  | y :: l' => if leb x y then x :: l else y :: insert_by leb x l'
  end.

(** ORDER BY: a stable insertion sort. *)
Definition sort_by {A : Type} (leb : A -> A -> bool) (l : list A) : list A :=
  fold_right (insert_by leb) [] l.

Definition group_leb (c : Column) (desc : bool) (g h : Group) : bool :=
  if desc then column_leb c (fst h) (fst g) else column_leb c (fst g) (fst h).

Definition apply_where (w : option (Column * Cmp)) (args : list Arg) (rows : list Row)
  : option (list Row * list Arg) :=
  match w, args with
  | None, _ => Some (rows, args)
  | Some (c, o), v :: args' =>
      match where_rows c o v rows with
      | Some rows' => Some (rows', args')
      | None => None
      end
  | Some _, [] => None
  end.

(** The aggregated select list needs its GROUP BY; the plain one has
    none, each row then stands for itself. *)
Definition apply_group (extra : bool) (g : option Column) (rows : list Row)
  : option (list Group) :=
  match extra, g with
  | true, Some c => Some (group_by c rows)
  | false, None => Some (map (fun r => (fst r, [snd r])) rows)
  | _, _ => None
  end.

Definition apply_order (o : option (Column * bool)) (gs : list Group) : list Group :=
  match o with
  | None => gs
  | Some (c, desc) => sort_by (group_leb c desc) gs
  end.

Definition apply_limit (l : bool) (args : list Arg) (gs : list Group)
  : option (list Group) :=
  match l, args with
  | false, [] => Some gs
  | true, [ArgInt n] => if n <? 0 then None else Some (firstn (Z.to_nat n) gs)
  | _, _ => None
  end.

Definition eval_select (t : Tables) (s : Select) (args : list Arg)
  : option (list Group) :=
  let rows := if sel_extra s then joined t
              else map (fun a => (a, None)) (activists t) in
  match apply_where (sel_where s) args rows with
  | None => None
  | Some (rows, args) =>
      match apply_group (sel_extra s) (sel_group s) rows with
      | None => None
      | Some gs => apply_limit (sel_limit s) args (apply_order (sel_order s) gs)
      end
  end.

(** The result of a SELECT: whether its rows carry the aggregated select
    list, and the rows.  [None] when the store rejects the statement. *)
Definition run_select (t : Tables) (query : string) (args : list Arg)
  : option (bool * list Group) :=
  match tokens query with
  | None => None
  | Some ts =>
      match parse_select ts with
      | None => None
      | Some s =>
          match eval_select t s args with
          | None => None
          | Some gs => Some (sel_extra s, gs)
          end
      end
  end.

(** Aggregates over the events of a group. *)
Definition dates (es : list (option Event)) : list Time :=
  flat_map (fun o => match o with Some e => [e_date e] | None => [] end) es.

Definition sql_MIN (l : list Time) : option Time :=
  match l with
  | [] => None
  | d :: l' => Some (fold_left Z.min l' d)
  end.

Definition sql_MAX (l : list Time) : option Time :=
  match l with
  | [] => None
  | d :: l' => Some (fold_left Z.max l' d)
  end.

(** COUNT(e.id): the rows whose event is not NULL. *)
Definition sql_COUNT (es : list (option Event)) : Z :=
  len (filter (fun o => match o with Some _ => true | None => false end) es).

(** ** Scanning rows into structures *)

Definition scan_NullString (o : option string) : NullString :=
  match o with
  | Some s => {| String_ := s; Valid := true |}
  | None => NullString_zero
  end.

Definition store_NullString (n : NullString) : option string :=
  if Valid n then Some (String_ n) else None.

(** [extra] tells whether the row has the columns of the aggregated
    select list; a field with no column keeps its zero value. *)
Definition scan_User_columns (extra : bool) (a : Activist) : User :=
  {| ID := a_id a; Name := a_name a; Email := a_email a;
     Chapter := a_chapter a; Phone := a_phone a;
     Location := scan_NullString (a_location a);
     Facebook := a_facebook a;
     LiberationPledge := if extra then a_liberation_pledge a else 0 |}.

(** A destination of [Select] and [Get].  A column with no field in the
    destination makes the scan fail. *)
Class Dest (A : Type) : Type := {
  dest_zero : A;
  dest_scan : bool -> Group -> option A
}.

Definition scan_User (extra : bool) (g : Group) : option User :=
  if extra then None else Some (scan_User_columns false (fst g)).

Definition scan_UserExtra (extra : bool) (g : Group) : UserExtra :=
  let a := fst g in
  {| UserExtra_User := scan_User_columns extra a;
     UserExtra_UserEventData :=
       if extra
       then {| FirstEvent := sql_MIN (dates (snd g));
               LastEvent := sql_MAX (dates (snd g));
               TotalEvents := sql_COUNT (snd g);
               Status := "" |}
       else {| FirstEvent := None; LastEvent := None;
               TotalEvents := 0; Status := "" |};
     UserExtra_UserMembershipData :=
       if extra
       then {| CoreStaff := a_core_staff a;
               ExcludeFromLeaderboard := a_exclude_from_leaderboard a;
               GlobalTeamMember := a_global_team_member a;
               ActivistLevel := a_activist_level a |}
       else {| CoreStaff := 0; ExcludeFromLeaderboard := 0;
               GlobalTeamMember := 0; ActivistLevel := "" |} |}.

Definition UserExtra_zero : UserExtra :=
  {| UserExtra_User := User_zero;
     UserExtra_UserEventData :=
       {| FirstEvent := None; LastEvent := None; TotalEvents := 0; Status := "" |};
     UserExtra_UserMembershipData :=
       {| CoreStaff := 0; ExcludeFromLeaderboard := 0;
          GlobalTeamMember := 0; ActivistLevel := "" |} |}.

#[export] Instance Dest_User : Dest User :=
  {| dest_zero := User_zero; dest_scan := scan_User |}.

#[export] Instance Dest_UserExtra : Dest UserExtra :=
  {| dest_zero := UserExtra_zero;
     dest_scan := fun extra g => Some (scan_UserExtra extra g) |}.

Fixpoint scan_all {A : Type} `{Dest A} (extra : bool) (gs : list Group)
  : option (list A) :=
  match gs with
  | [] => Some []
  | g :: gs' =>
      match dest_scan extra g, scan_all extra gs' with
      | Some x, Some xs => Some (x :: xs)
      | _, _ => None
      end
  end.

(** ** The calls on the handle and on the transaction *)

(** Every call that reaches the store is logged and takes the next flag
    of the fault schedule. *)
Definition store_call (op : Op) : Go bool :=
  fun db =>
    Returns (hd false (faults db))
            (set_log (log db ++ [op]) (set_faults (tl (faults db)) db)).

(** [db.Select(&dest, query, args...)]: the destination and the error.
    Outside a transaction a statement sees the committed tables. *)
Definition db_Select {A : Type} `{Dest A} (query : string) (args : list Arg)
  : Go (list A * error) :=
  failed <- store_call (OpSelect query args);;
  if (failed : bool) then ret ([], Some driver_ErrBadConn)
  else
    db <- get_db;;
    match run_select (committed db) query args with
    | None => ret ([], Some mysql_Error)
    | Some (extra, gs) =>
        match scan_all extra gs with
        | None => ret ([], Some mysql_Error)
        | Some rows => ret (rows, None)
        end
    end.

(** [db.Beginx()]: this file holds at most one transaction at a time, so
    the transaction handle is the [tx] component of the state. *)
Definition db_Beginx : Go error :=
  failed <- store_call OpBeginx;;
  if (failed : bool) then ret (Some driver_ErrBadConn)
  else modify_db (fun db => set_tx (Some (committed db)) db);;; ret None.

(** [tx.Rollback()]: a finished transaction answers [ErrTxDone] without
    reaching the store; otherwise the transaction is discarded, also
    when the call itself fails (the connection is then lost and the store
    drops the transaction). *)
Definition tx_Rollback : Go error :=
  db <- get_db;;
  match tx db with
  | None => ret (Some sql_ErrTxDone)
  | Some _ =>
      failed <- store_call OpRollback;;
      modify_db (set_tx None);;;
      ret (if (failed : bool) then Some driver_ErrBadConn else None)
  end.

(** [tx.Commit()]: on success the tables of the transaction become the
    committed ones; on failure nothing is committed.  Either way the
    transaction is finished. *)
Definition tx_Commit : Go error :=
  db <- get_db;;
  match tx db with
  | None => ret (Some sql_ErrTxDone)
  | Some t =>
      failed <- store_call OpCommit;;
      if (failed : bool)
      then modify_db (set_tx None);;; ret (Some driver_ErrBadConn)
      else modify_db (fun db => set_tx None (set_committed t db));;; ret None
  end.

(** [tx.Get(&dest, query, args...)]: the first row, [ErrNoRows] if none. *)
Definition tx_Get {A : Type} `{Dest A} (query : string) (args : list Arg)
  : Go (A * error) :=
  db <- get_db;;
  match tx db with
  | None => ret (dest_zero, Some sql_ErrTxDone)
  | Some t =>
      failed <- store_call (OpGet query args);;
      if (failed : bool) then ret (dest_zero, Some driver_ErrBadConn)
      else
        match run_select t query args with
        | None => ret (dest_zero, Some mysql_Error)
        | Some (extra, []) => ret (dest_zero, Some sql_ErrNoRows)
        | Some (extra, g :: _) =>
            match dest_scan extra g with
            | None => ret (dest_zero, Some mysql_Error)
            | Some row => ret (row, None)
            end
        end
  end.

(** [UPDATE activists SET ... WHERE id = :id] on one row. *)
Definition update_activist (u : UserExtra) (a : Activist) : Activist :=
  if a_id a =? ID (UserExtra_User u)
  then {| a_id := a_id a;
          a_name := Name (UserExtra_User u);
          a_email := Email (UserExtra_User u);
          a_chapter := Chapter (UserExtra_User u);
          a_phone := Phone (UserExtra_User u);
          a_location := store_NullString (Location (UserExtra_User u));
          a_facebook := Facebook (UserExtra_User u);
          a_activist_level := ActivistLevel (UserExtra_UserMembershipData u);
          a_exclude_from_leaderboard :=
            ExcludeFromLeaderboard (UserExtra_UserMembershipData u);
          a_core_staff := CoreStaff (UserExtra_UserMembershipData u);
          a_global_team_member := GlobalTeamMember (UserExtra_UserMembershipData u);
          a_liberation_pledge := LiberationPledge (UserExtra_User u) |}
  else a.

Definition set_activists (l : list Activist) (t : Tables) : Tables :=
  {| activists := l; event_attendance := event_attendance t; events := events t |}.

(** [db.NamedExec(stmt, arg)]: the named parameters are the fields of
    [arg].  The statement runs outside a transaction and is committed at
    once.  An UPDATE whose WHERE clause selects no row is not an error. *)
Definition db_NamedExec (stmt : string) (arg : UserExtra) : Go error :=
  failed <- store_call (OpNamedExec stmt arg);;
  if (failed : bool) then ret (Some driver_ErrBadConn)
  else if String.eqb stmt updateActivistStmt
  then
    modify_db (fun db =>
      set_committed
        (set_activists (map (update_activist arg) (activists (committed db)))
                       (committed db)) db);;;
    ret None
  else ret (Some mysql_Error).

Section Repository.

Context {env : Env}.

(** [INSERT INTO activists (name) VALUES (?)]: the new row takes the next
    value of the counter as its id and the column defaults elsewhere. *)
Definition new_activist (id : Z) (name : string) : Activist :=
  {| a_id := id;
     a_name := name;
     a_email := a_email activists_defaults;
     a_chapter := a_chapter activists_defaults;
     a_phone := a_phone activists_defaults;
     a_location := a_location activists_defaults;
     a_facebook := a_facebook activists_defaults;
     a_activist_level := a_activist_level activists_defaults;
     a_exclude_from_leaderboard := a_exclude_from_leaderboard activists_defaults;
     a_core_staff := a_core_staff activists_defaults;
     a_global_team_member := a_global_team_member activists_defaults;
     a_liberation_pledge := a_liberation_pledge activists_defaults |}.

(** [tx.Exec(stmt, args...)]: the result is dropped by the caller, only
    the error is modelled.  The counter is not transactional: it keeps
    its new value when the transaction is rolled back. *)
Definition tx_Exec (stmt : string) (args : list Arg) : Go error :=
  db <- get_db;;
  match tx db with
  | None => ret (Some sql_ErrTxDone)
  | Some t =>
      failed <- store_call (OpExec stmt args);;
      if (failed : bool) then ret (Some driver_ErrBadConn)
      else if String.eqb stmt insertActivistStmt
      then
        match args with
        | [ArgString name] =>
            modify_db (fun db =>
              set_auto_increment (auto_increment db + 1)
                (set_tx (Some (set_activists
                                 (activists t ++ [new_activist (auto_increment db) name])
                                 t)) db));;;
            ret None
        | _ => ret (Some mysql_Error)
        end
      else ret (Some mysql_Error)
  end.

(** ** Functions and methods *)

Definition set_Status (s : string) (u : UserExtra) : UserExtra :=
  {| UserExtra_User := UserExtra_User u;
     UserExtra_UserEventData :=
       {| FirstEvent := FirstEvent (UserExtra_UserEventData u);
          LastEvent := LastEvent (UserExtra_UserEventData u);
          TotalEvents := TotalEvents (UserExtra_UserEventData u);
          Status := s |};
     UserExtra_UserMembershipData := UserExtra_UserMembershipData u |}.

Definition GetUsersExtra (userID : Z) : Go (list UserExtra * error) :=
  let query := selectUserExtraBaseQuery in
  let queryArgs : list Arg := [] in
  let '(query, queryArgs) :=
    if negb (userID =? 0)
    then (* retrieve specific user rather than all users *)
      ((query ++ " WHERE a.id = ? ")%string, queryArgs ++ [ArgInt userID])
    else (query, queryArgs) in
  let query := (query ++ " GROUP BY a.id ")%string in
  '(users, err) <- db_Select query queryArgs;;
  match err with
  | Some err =>
      ret ([], Some (errors_Wrapf err "failed to get users extra for uid %d"
                                  [ArgInt userID]))
  | None =>
      let users :=
        map (fun u : UserExtra =>
               set_Status (getStatus (FirstEvent (UserExtra_UserEventData u))
                                     (LastEvent (UserExtra_UserEventData u))
                                     (TotalEvents (UserExtra_UserEventData u))) u)
            users in
      ret (users, None)
  end.

(** One turn of the loop of [buildUserJSONArray]. *)
Definition buildUserJSON (u : UserExtra) : UserJSON :=
  let firstEvent :=
    match FirstEvent (UserExtra_UserEventData u) with
    | Some t => time_Format t EventDateLayout
    | None => ""
    end in
  let lastEvent :=
    match LastEvent (UserExtra_UserEventData u) with
    | Some t => time_Format t EventDateLayout
    | None => ""
    end in
  let location :=
    if Valid (Location (UserExtra_User u))
    then String_ (Location (UserExtra_User u))
    else "" in
  {| UserJSON.ID := ID (UserExtra_User u);
     UserJSON.Name := Name (UserExtra_User u);
     UserJSON.Email := Email (UserExtra_User u);
     UserJSON.Chapter := Chapter (UserExtra_User u);
     UserJSON.Phone := Phone (UserExtra_User u);
     UserJSON.Location := location;
     UserJSON.Facebook := Facebook (UserExtra_User u);
     UserJSON.ActivistLevel := ActivistLevel (UserExtra_UserMembershipData u);
     UserJSON.FirstEvent := firstEvent;
     UserJSON.LastEvent := lastEvent;
     UserJSON.TotalEvents := TotalEvents (UserExtra_UserEventData u);
     UserJSON.Status := Status (UserExtra_UserEventData u);
     UserJSON.Core := CoreStaff (UserExtra_UserMembershipData u);
     UserJSON.ExcludeFromLeaderboard :=
       ExcludeFromLeaderboard (UserExtra_UserMembershipData u);
     UserJSON.LiberationPledge := LiberationPledge (UserExtra_User u);
     UserJSON.GlobalTeamMember := GlobalTeamMember (UserExtra_UserMembershipData u) |}.

Definition buildUserJSONArray (users : list UserExtra) : list UserJSON :=
  fold_left (fun usersJSON u => usersJSON ++ [buildUserJSON u]) users [].

Definition getUsersJSON (userID : Z) : Go (list UserJSON * error) :=
  '(users, err) <- GetUsersExtra userID;;
  match err with
  | Some err => ret ([], Some err)
  | None =>
      let usersJSON := buildUserJSONArray users in
      ret (usersJSON, None)
  end.

Definition GetUsersJSON : Go (list UserJSON * error) :=
  getUsersJSON 0.

Definition GetUserJSON (userID : Z) : Go (UserJSON * error) :=
  '(users, err) <- getUsersJSON userID;;
  match err with
  | Some err => ret (UserJSON_zero, Some err)
  | None =>
      u <- index users 0;;
      ret (u, None)
  end.

Definition getUserRange (userOptions : UserOptionsJSON)
  : Go (list UserExtra * error) :=
  let query := selectUserExtraBaseQuery in
  let name := opt_Name userOptions in
  let order := opt_Order userOptions in
  let limit := opt_Limit userOptions in
  let queryArgs : list Arg := [] in
  let '(query, queryArgs) :=
    if negb (String.eqb name "")
    then
      let query :=
        if order =? descOrder
        then (query ++ " WHERE a.name < ? ")%string
        else (query ++ " WHERE a.name > ? ")%string in
      (query, queryArgs ++ [ArgString name])
    else (query, queryArgs) in
  let query := (query ++ " GROUP BY a.name ORDER BY a.name ")%string in
  let query := if order =? descOrder then (query ++ "desc ")%string else query in
  let '(query, queryArgs) :=
    if limit >? 0
    then ((query ++ " LIMIT ? ")%string, queryArgs ++ [ArgInt limit])
    else (query, queryArgs) in
  '(users, err) <- db_Select query queryArgs;;
  match err with
  | Some err =>
      ret ([], Some (errors_Wrapf err "failed to retrieve %d users before/after %s"
                                  [ArgInt limit; ArgString name]))
  | None => ret (users, None)
  end.

Definition GetUserRangeJSON (userOptions : UserOptionsJSON)
  : Go (list UserJSON * error) :=
  (* Check that order matches one of the defined order constants *)
  if negb (opt_Order userOptions =? descOrder)
     && negb (opt_Order userOptions =? ascOrder)
  then ret ([], Some (errors_New "User Range order must be ascending or descending"))
  else
    '(users, err) <- getUserRange userOptions;;
    match err with
    | Some err => ret ([], Some err)
    | None => ret (buildUserJSONArray users, None)
    end.

Definition getUsers (name : string) : Go (list User * error) :=
  let queryArgs : list Arg := [] in
  let query := selectUserBaseQuery in
  let '(query, queryArgs) :=
    if negb (String.eqb name "")
    then ((query ++ " WHERE name = ? ")%string, queryArgs ++ [ArgString name])
    else (query, queryArgs) in
  let query := (query ++ " ORDER BY name ")%string in
  '(users, err) <- db_Select query queryArgs;;
  match err with
  | Some err =>
      ret ([], Some (errors_Wrapf err "failed to get users for %s" [ArgString name]))
  | None => ret (users, None)
  end.

Definition GetUsers : Go (list User * error) :=
  getUsers "".

Definition GetUser (name : string) : Go (User * error) :=
  '(users, err) <- getUsers name;;
  match err with
  | Some err => ret (User_zero, Some err)
  | None =>
      if len users =? 0
      then ret (User_zero, Some (errors_New "Could not find any users"))
      else if len users >? 1
      then ret (User_zero, Some (errors_New "Found too many users"))
      else
        u <- index users 0;;
        ret (u, None)
  end.

Definition GetOrCreateUser (name : string) : Go (User * error) :=
  '(user, err) <- GetUser name;;
  match err with
  | None =>
      (* We got a valid user, return them. *)
      ret (user, None)
  | Some _ =>
      (* There was an error, so try inserting the user first. *)
      err <- db_Beginx;;
      match err with
      | Some err =>
          ret (User_zero, Some (errors_Wrap err "Failed to create transaction"))
      | None =>
          err <- tx_Exec "INSERT INTO activists (name) VALUES (?)" [ArgString name];;
          match err with
          | Some err =>
              tx_Rollback;;;
              ret (User_zero,
                   Some (errors_Wrapf err "failed to insert user %s" [ArgString name]))
          | None =>
              let query := (selectUserBaseQuery ++ " WHERE name = ? ")%string in
              '(newUser, err) <- tx_Get query [ArgString name];;
              match err with
              | Some err =>
                  tx_Rollback;;;
                  ret (User_zero,
                       Some (errors_Wrapf err "failed to get new user %s"
                                          [ArgString name]))
              | None =>
                  err <- tx_Commit;;
                  match err with
                  | Some err =>
                      tx_Rollback;;;
                      ret (User_zero,
                           Some (errors_Wrapf err "failed to commit user %s"
                                              [ArgString name]))
                  | None => ret (newUser, None)
                  end
              end
          end
      end
  end.

Definition UpdateActivistData (user : UserExtra) : Go (Z * error) :=
  err <- db_NamedExec updateActivistStmt user;;
  match err with
  | Some err => ret (0, Some (errors_Wrap err "failed to update activist data"))
  | None => ret (ID (UserExtra_User user), None)
  end.

End Repository.

(** ** The event aggregate of one activist *)

(** The statement of [GetUserEventData], a literal of that method. *)
Definition userEventDataQuery : string := "
SELECT
  MIN(e.date) AS first_event,
  MAX(e.date) AS last_event,
  COUNT(*) as total_events
FROM events e
JOIN event_attendance
  ON event_attendance.event_id = e.id
WHERE
  event_attendance.activist_id = ?
".

(** [events e JOIN event_attendance ON event_attendance.event_id = e.id] *)
Definition events_joined (t : Tables) : list (Event * EventAttendance) :=
  flat_map
    (fun e =>
       map (fun ea => (e, ea))
           (filter (fun ea => ea_event_id ea =? e_id e) (event_attendance t)))
    (events t).

(** The rows of the inner join that belong to one activist. *)
Definition attended (id : Z) (t : Tables) : list (Event * EventAttendance) :=
  filter (fun r => ea_activist_id (snd r) =? id) (events_joined t).

(** The select list has aggregates and no GROUP BY: the answer is one
    row, also when no row is selected (NULL, NULL, 0). *)
Definition event_aggregate (id : Z) (t : Tables) : UserEventData :=
  let rows := attended id t in
  {| FirstEvent := sql_MIN (map (fun r => e_date (fst r)) rows);
     LastEvent := sql_MAX (map (fun r => e_date (fst r)) rows);
     TotalEvents := len rows;
     Status := "" |}.

Definition UserEventData_zero : UserEventData :=
  {| FirstEvent := None; LastEvent := None; TotalEvents := 0; Status := "" |}.

(** [db.Get(&data, query, args...)] with a [UserEventData] destination:
    the store recognises the statement above with its one argument. *)
Definition db_Get_UserEventData (query : string) (args : list Arg)
  : Go (UserEventData * error) :=
  failed <- store_call (OpGet query args);;
  if (failed : bool) then ret (UserEventData_zero, Some driver_ErrBadConn)
  else if String.eqb query userEventDataQuery
  then
    match args with
    | [ArgInt id] =>
        db <- get_db;;
        ret (event_aggregate id (committed db), None)
    | _ => ret (UserEventData_zero, Some mysql_Error)
    end
  else ret (UserEventData_zero, Some mysql_Error).

(** The method [func (u User) GetUserEventData(db *sqlx.DB)]. *)
Definition GetUserEventData (u : User) : Go (UserEventData * error) :=
  let query := userEventDataQuery in
  '(data, err) <- db_Get_UserEventData query [ArgInt (ID u)];;
  match err with
  | Some err =>
      ret (UserEventData_zero,
           Some (errors_Wrap err "failed to get user event data"))
  | None => ret (data, None)
  end.

(** The rows that the two left joins make of one activist. *)
Definition joined_rows (t : Tables) (a : Activist) : list Row :=
  match filter (fun ea => ea_activist_id ea =? a_id a) (event_attendance t) with
  | [] => [(a, None)]
  | eas =>
      flat_map
        (fun ea =>
           match filter (fun e => e_id e =? ea_event_id ea) (events t) with
           | [] => [(a, None)]
           | es => map (fun e => (a, Some e)) es
           end)
        eas
  end.

(** The date of an event when it was attended by the activist [id]
    through the attendance row [ea]. *)
Definition attended_date (id : Z) (ea : EventAttendance) (e : Event) : list Time :=
  if (ea_activist_id ea =? id) && (e_id e =? ea_event_id ea)
  then [e_date e] else [].

(** What the three aggregates of one activist owe each other. *)
Definition consistent_aggregates (d : UserEventData) : Prop :=
  0 <= TotalEvents d /\
  (TotalEvents d = 0 <-> FirstEvent d = None) /\
  (FirstEvent d = None <-> LastEvent d = None) /\
  (forall f l : Time, FirstEvent d = Some f -> LastEvent d = Some l -> f <= l).

(** The query of the first page, as [getUserRange] assembles it when
    the anchor is empty: no WHERE clause, and a LIMIT clause only for a
    positive limit. *)
Definition first_page_query (order limit : Z) : string :=
  let query :=
    (selectUserExtraBaseQuery ++ " GROUP BY a.name ORDER BY a.name ")%string in
  let query := if order =? descOrder then (query ++ "desc ")%string else query in
  if limit >? 0 then (query ++ " LIMIT ? ")%string else query.

Definition first_page_args (limit : Z) : list Arg :=
  if limit >? 0 then [ArgInt limit] else [].

(** The record that the grouped listing makes of the rows [a :: others]
    sharing a name: the columns of the first of them, and the aggregates
    over the events joined to all of them. *)
Definition merged_record (t : Tables) (a : Activist) (others : list Activist)
  : UserExtra :=
  scan_UserExtra true (a, map snd (flat_map (joined_rows t) (a :: others))).

(** ** Fixtures *)

Definition mkActivist (id : Z) (name : string) : Activist :=
  {| a_id := id; a_name := name; a_email := ""; a_chapter := ""; a_phone := "";
     a_location := None; a_facebook := ""; a_activist_level := "";
     a_exclude_from_leaderboard := 0; a_core_staff := 0;
     a_global_team_member := 0; a_liberation_pledge := 0 |}.

(** An environment to run the functions in: the layout of the package,
    a [Format] that only tells the first day of the epoch from the later
    ones, a two-valued [getStatus] and empty column defaults. *)
Definition testEnv : Env :=
  {| EventDateLayout := "2006-01-02";
     time_Format := fun t _ => if t <? 86400 then "1970-01-01" else "later";
     getStatus := fun _ _ n => if n =? 0 then "No attendance" else "Current";
     activists_defaults := mkActivist 0 "" |}.

Definition mkDB (t : Tables) (next : Z) (f : list bool) : DB :=
  {| committed := t; tx := None; auto_increment := next; faults := f; log := [] |}.

Definition fixture : Tables :=
  {| activists :=
       [mkActivist 1 "Carol"; mkActivist 2 "Alice"; mkActivist 3 "Bob";
        mkActivist 4 "Dave"; mkActivist 5 "Bob"];
     event_attendance :=
       [{| ea_event_id := 10; ea_activist_id := 3 |};
        {| ea_event_id := 11; ea_activist_id := 3 |};
        {| ea_event_id := 11; ea_activist_id := 5 |};
        {| ea_event_id := 12; ea_activist_id := 1 |}];
     events := [{| e_id := 10; e_date := 100 |}; {| e_id := 11; e_date := 50 |}] |}.

Definition two_strangers : Tables :=
  {| activists := [mkActivist 1 "Bob"; mkActivist 2 "Carol"];
     event_attendance := []; events := [] |}.

Definition one_stranger : Tables :=
  {| activists := [mkActivist 1 "Bob"]; event_attendance := []; events := [] |}.

Definition fixture_db : DB := mkDB fixture 6 [].

(** The same store with a schedule of six calls, none of which fails. *)
Definition fixture_db_six_calls : DB :=
  mkDB fixture 6 [false; false; false; false; false; false].

Definition after_Bob : UserOptionsJSON :=
  {| opt_Name := "Bob"; opt_Limit := 0; opt_Order := ascOrder |}.

Definition last_two : UserOptionsJSON :=
  {| opt_Name := ""; opt_Limit := 2; opt_Order := descOrder |}.

Definition bad_order : UserOptionsJSON :=
  {| opt_Name := ""; opt_Limit := 2; opt_Order := 3 |}.

(** A record whose id, 0, no row of the fixture has. *)
Definition nobody : UserExtra := UserExtra_zero.

(** A record to write over the row with id 2 of the fixture. *)
Definition alice_rewritten : UserExtra :=
  {| UserExtra_User :=
       {| ID := 2; Name := "Alicia"; Email := "alicia@example.org";
          Chapter := "Berkeley"; Phone := "555"; 
          Location := {| String_ := "Oakland"; Valid := true |};
          Facebook := "alicia"; LiberationPledge := 1 |};
     UserExtra_UserEventData :=
       {| FirstEvent := None; LastEvent := None; TotalEvents := 0; Status := "" |};
     UserExtra_UserMembershipData :=
       {| CoreStaff := 1; ExcludeFromLeaderboard := 0; GlobalTeamMember := 1;
          ActivistLevel := "organizer" |} |}.

(** The first page of two of the fixture in ascending order: Alice,
    then the two rows named Bob as one record with their three events. *)
Definition page_front : list UserExtra :=
  [scan_UserExtra true (mkActivist 2 "Alice", [None])].

Definition page_last : UserExtra :=
  scan_UserExtra true
    (mkActivist 3 "Bob",
     [Some {| e_id := 10; e_date := 100 |}; Some {| e_id := 11; e_date := 50 |};
      Some {| e_id := 11; e_date := 50 |}]).

(** ** The error kinds of the specification, as the code spells them *)

Definition NotFound : Error := errors_New "Could not find any users".
Definition AmbiguousResult : Error := errors_New "Found too many users".
Definition ValidationError : Error :=
  errors_New "User Range order must be ascending or descending".

(** The rows of [activists] with a given name, and with a given id. *)
Definition named (name : string) (l : list Activist) : list Activist :=
  filter (fun a => String.eqb (a_name a) name) l.

Definition with_id (id : Z) (l : list Activist) : list Activist :=
  filter (fun a => a_id a =? id) l.

(** The state after a call reached the store. *)
Definition after_call (op : Op) (db : DB) : DB :=
  set_log (log db ++ [op]) (set_faults (tl (faults db)) db).

(** ** Vocabulary of the statements *)

Section Vocabulary.

Context {env : Env}.

Definition by_name (a b : Activist) : bool := String.leb (a_name a) (a_name b).

(** The rows a lookup by name ranges over: the empty name lifts the
    filter and stands for every row. *)
Definition looked_up (name : string) (l : list Activist) : list Activist :=
  if String.eqb name "" then l else named name l.

Definition getUsers_query (name : string) : string :=
  if String.eqb name ""
  then (selectUserBaseQuery ++ " ORDER BY name ")%string
  else ((selectUserBaseQuery ++ " WHERE name = ? ") ++ " ORDER BY name ")%string.

Definition getUsers_args (name : string) : list Arg :=
  if String.eqb name "" then [] else [ArgString name].

(** What [GetUser] answers, read off the committed table and the next
    flag of the fault schedule. *)
Definition GetUser_answer (name : string) (db : DB) : User * error :=
  if hd false (faults db)
  then (User_zero,
        Some (errors_Wrapf driver_ErrBadConn "failed to get users for %s"
                           [ArgString name]))
  else
    match sort_by by_name (looked_up name (activists (committed db))) with
    | [] => (User_zero, Some NotFound)
    | [a] => (scan_User_columns false a, None)
    | _ :: _ :: _ => (User_zero, Some AmbiguousResult)
    end.

(** What [GetOrCreateUser] does once the lookup has failed, read off the
    state [db0] left by the lookup: the transaction is opened, the row
    inserted and read back, and the transaction committed, the first
    failing call ending the attempt. *)
Definition insert_path (name : string) (db0 : DB) : Outcome (User * error) :=
  let insert := OpExec "INSERT INTO activists (name) VALUES (?)" [ArgString name] in
  let reread :=
    OpGet (selectUserBaseQuery ++ " WHERE name = ? ")%string [ArgString name] in
  let row := new_activist (auto_increment db0) name in
  let db1 := after_call OpBeginx db0 in
  if hd false (faults db0)
  then Returns (User_zero,
                Some (errors_Wrap driver_ErrBadConn "Failed to create transaction"))
               db1
  else
    let db2 := after_call insert db1 in
    if hd false (faults db1)
    then Returns (User_zero,
                  Some (errors_Wrapf driver_ErrBadConn "failed to insert user %s"
                                     [ArgString name]))
                 (after_call OpRollback db2)
    else
      let db3 := after_call reread (set_auto_increment (auto_increment db0 + 1) db2) in
      if hd false (faults db2)
      then Returns (User_zero,
                    Some (errors_Wrapf driver_ErrBadConn "failed to get new user %s"
                                       [ArgString name]))
                   (after_call OpRollback db3)
      else
        let db4 := after_call OpCommit db3 in
        if hd false (faults db3)
        then Returns (User_zero,
                      Some (errors_Wrapf driver_ErrBadConn "failed to commit user %s"
                                         [ArgString name]))
                     db4
        else
          Returns (scan_User_columns false
                     (hd row (named name (activists (committed db0)))), None)
                  (set_committed
                     (set_activists (activists (committed db0) ++ [row])
                                    (committed db0))
                     db4).

Definition with_status (u : UserExtra) : UserExtra :=
  set_Status (getStatus (FirstEvent (UserExtra_UserEventData u))
                        (LastEvent (UserExtra_UserEventData u))
                        (TotalEvents (UserExtra_UserEventData u))) u.

Definition GetUsersExtra_query (userID : Z) : string :=
  if userID =? 0
  then (selectUserExtraBaseQuery ++ " GROUP BY a.id ")%string
  else ((selectUserExtraBaseQuery ++ " WHERE a.id = ? ") ++ " GROUP BY a.id ")%string.

Definition GetUsersExtra_args (userID : Z) : list Arg :=
  if userID =? 0 then [] else [ArgInt userID].

(** The rows the listing by id ranges over: id 0 lifts the filter. *)
Definition listed (userID : Z) (t : Tables) : list Row :=
  if userID =? 0 then joined t
  else filter (fun r => a_id (fst r) =? userID) (joined t).

(** Whether a name lies strictly beyond the anchor in the direction of
    the order. *)
Definition beyond (order : Z) (anchor n : string) : bool :=
  if order =? descOrder then String.ltb n anchor else String.ltb anchor n.

Definition range_filter (o : UserOptionsJSON) (rows : list Row) : list Row :=
  if String.eqb (opt_Name o) "" then rows
  else filter (fun r => beyond (opt_Order o) (opt_Name o) (a_name (fst r))) rows.

Definition range_page (o : UserOptionsJSON) (gs : list Group) : list Group :=
  if opt_Limit o >? 0 then firstn (Z.to_nat (opt_Limit o)) gs else gs.

Definition range_groups (o : UserOptionsJSON) (t : Tables) : list Group :=
  range_page o
    (sort_by (group_leb col_name (opt_Order o =? descOrder))
             (group_by col_name (range_filter o (joined t)))).

Definition name_of (u : UserExtra) : string := Name (UserExtra_User u).

(** [u] comes strictly before [v] in the direction of the order. *)
Definition in_order (order : Z) (u v : UserExtra) : Prop :=
  beyond order (name_of u) (name_of v) = true.

Definition set_Limit (n : Z) (o : UserOptionsJSON) : UserOptionsJSON :=
  {| opt_Name := opt_Name o; opt_Limit := n; opt_Order := opt_Order o |}.

Definition group_name (g : Group) : string := a_name (fst g).

End Vocabulary.

(** Tactics that run the calls and read the statements. *)

Ltac read_query :=
  unfold run_select;
  match goal with
  | |- context [tokens ?q] =>
      let r := eval vm_compute in (tokens q) in
      replace (tokens q) with r by (vm_compute; reflexivity)
  end;
  cbv beta iota;
  match goal with
  | |- context [parse_select ?ts] =>
      let r := eval vm_compute in (parse_select ts) in
      change (parse_select ts) with r
  end;
  cbv beta iota.

Ltac run_calls :=
  cbv beta iota zeta delta
    [bind ret get_db modify_db store_call after_call
     db_Beginx tx_Exec tx_Get tx_Commit tx_Rollback
     set_tx set_committed set_log set_faults set_auto_increment
     committed tx faults log auto_increment].

(** * Properties *)

Section Properties.

Context {env : Env}.

(** ** Order validation *)

(** C3: an order other than the two constants makes [GetUserRangeJSON]
    return no rows and the validation error, and the handle is left as it
    was: nothing was logged, so no query reached the store. *)
Theorem GetUserRangeJSON_invalid_order :
  forall (db : DB) (userOptions : UserOptionsJSON),
    opt_Order userOptions <> ascOrder ->
    opt_Order userOptions <> descOrder ->
    GetUserRangeJSON userOptions db = Returns ([], Some ValidationError) db.
Proof.
  intros db o Hasc Hdesc. unfold GetUserRangeJSON.
  apply Z.eqb_neq in Hasc. apply Z.eqb_neq in Hdesc.
  rewrite Hasc, Hdesc. reflexivity.
Qed.

(** ** Running one call *)

Lemma store_call_eq (op : Op) (db : DB) :
  store_call op db = Returns (hd false (faults db)) (after_call op db).
Proof. reflexivity. Qed.

Lemma set_activists_same (t : Tables) : set_activists (activists t) t = t.
Proof. destruct t; reflexivity. Qed.

(** ** The JSON shape *)

Lemma fold_left_append {A B : Type} (f : A -> B) (l : list A) (acc : list B) :
  fold_left (fun acc u => acc ++ [f u]) l acc = acc ++ map f l.
Proof.
  revert acc. induction l as [|x l IH]; intro acc; simpl.
  - now rewrite app_nil_r.
  - rewrite IH, <- app_assoc. reflexivity.
Qed.

Lemma buildUserJSONArray_map (users : list UserExtra) :
  buildUserJSONArray users = map buildUserJSON users.
Proof. unfold buildUserJSONArray. now rewrite fold_left_append. Qed.

(** C7: the record built for the [i]-th row has an empty first (last)
    event when the row has none and the formatted date otherwise, an empty
    location when the location is not valid (NULL in the store), and the
    four flags of the row as they are. *)
Theorem buildUserJSONArray_dates_location_flags :
  forall (users : list UserExtra) (i : nat) (u : UserExtra),
    nth_error users i = Some u ->
    exists j : UserJSON,
      nth_error (buildUserJSONArray users) i = Some j /\
      List.length (buildUserJSONArray users) = List.length users /\
      UserJSON.FirstEvent j =
        match FirstEvent (UserExtra_UserEventData u) with
        | None => ""
        | Some t => time_Format t EventDateLayout
        end /\
      UserJSON.LastEvent j =
        match LastEvent (UserExtra_UserEventData u) with
        | None => ""
        | Some t => time_Format t EventDateLayout
        end /\
      UserJSON.Location j =
        (if Valid (Location (UserExtra_User u))
         then String_ (Location (UserExtra_User u)) else "") /\
      UserJSON.Core j = CoreStaff (UserExtra_UserMembershipData u) /\
      UserJSON.ExcludeFromLeaderboard j =
        ExcludeFromLeaderboard (UserExtra_UserMembershipData u) /\
      UserJSON.LiberationPledge j = LiberationPledge (UserExtra_User u) /\
      UserJSON.GlobalTeamMember j =
        GlobalTeamMember (UserExtra_UserMembershipData u).
Proof.
  intros users i u Hi. exists (buildUserJSON u).
  rewrite buildUserJSONArray_map, length_map.
  split; [now apply map_nth_error|].
  repeat split.
Qed.

(** ** Updating *)

Lemma update_activist_other (user : UserExtra) (l : list Activist) :
  with_id (ID (UserExtra_User user)) l = [] ->
  map (update_activist user) l = l.
Proof.
  unfold with_id. induction l as [|a l IH]; simpl; intro H; [reflexivity|].
  unfold update_activist at 1.
  destruct (a_id a =? ID (UserExtra_User user)); [discriminate|].
  now rewrite IH.
Qed.

(** C9: when no row has the id of the record and the statement reaches
    the store, [UpdateActivistData] returns that id and no error, while the
    committed tables are what they were. *)
Theorem UpdateActivistData_unknown_id :
  forall (db : DB) (user : UserExtra),
    hd false (faults db) = false ->
    with_id (ID (UserExtra_User user)) (activists (committed db)) = [] ->
    exists db' : DB,
      UpdateActivistData user db = Returns (ID (UserExtra_User user), None) db' /\
      committed db' = committed db /\
      log db' = log db ++ [OpNamedExec updateActivistStmt user].
Proof.
  intros db user Hf Hid.
  unfold UpdateActivistData, db_NamedExec, bind.
  rewrite store_call_eq, Hf, String.eqb_refl.
  unfold modify_db, ret.
  eexists. split; [reflexivity|].
  split; [|reflexivity].
  cbn [committed set_committed after_call set_log set_faults activists].
  now rewrite (update_activist_other _ _ Hid), set_activists_same.
Qed.

(** ** Lists: sorting, filtering, scanning *)

Lemma insert_by_perm {A : Type} (leb : A -> A -> bool) (x : A) (l : list A) :
  Permutation (insert_by leb x l) (x :: l).
Proof.
  induction l as [|y l IH]; simpl; [reflexivity|].
  destruct (leb x y); [reflexivity|].
  rewrite IH. apply perm_swap.
Qed.

Lemma sort_by_perm {A : Type} (leb : A -> A -> bool) (l : list A) :
  Permutation (sort_by leb l) l.
Proof.
  induction l as [|x l IH]; simpl; [reflexivity|].
  rewrite insert_by_perm. now constructor.
Qed.

Lemma insert_by_map {A B : Type} (f : A -> B)
      (leA : A -> A -> bool) (leB : B -> B -> bool) :
  (forall x y, leB (f x) (f y) = leA x y) ->
  forall x l, insert_by leB (f x) (map f l) = map f (insert_by leA x l).
Proof.
  intros H x l. induction l as [|y l IH]; simpl; [reflexivity|].
  rewrite H. destruct (leA x y); simpl; [reflexivity|]. now rewrite IH.
Qed.

Lemma sort_by_map {A B : Type} (f : A -> B)
      (leA : A -> A -> bool) (leB : B -> B -> bool) :
  (forall x y, leB (f x) (f y) = leA x y) ->
  forall l, sort_by leB (map f l) = map f (sort_by leA l).
Proof.
  intros H l. induction l as [|x l IH]; simpl; [reflexivity|].
  rewrite IH. now apply insert_by_map.
Qed.

Lemma filter_of_map {A B : Type} (f : A -> B) (p : B -> bool) (l : list A) :
  filter p (map f l) = map f (filter (fun x => p (f x)) l).
Proof.
  induction l as [|x l IH]; simpl; [reflexivity|].
  destruct (p (f x)); simpl; now rewrite IH.
Qed.

Lemma scan_all_User (gs : list Group) :
  scan_all (A := User) false gs
  = Some (map (fun g => scan_User_columns false (fst g)) gs).
Proof.
  induction gs as [|g gs IH]; [reflexivity|].
  cbn [scan_all dest_scan Dest_User scan_User map]. now rewrite IH.
Qed.

Lemma scan_all_UserExtra (extra : bool) (gs : list Group) :
  scan_all (A := UserExtra) extra gs = Some (map (scan_UserExtra extra) gs).
Proof.
  induction gs as [|g gs IH]; [reflexivity|].
  cbn [scan_all dest_scan Dest_UserExtra map]. now rewrite IH.
Qed.

(** ** Names *)

Lemma compare_Eq (a b : string) : String.compare a b = Eq <-> a = b.
Proof. exact (String_as_OT.cmp_eq a b). Qed.

Lemma satisfies_eq (a b : string) :
  satisfies cmp_eq (String.compare a b) = String.eqb a b.
Proof.
  destruct (String.eqb_spec a b) as [->|Hne].
  - now rewrite (proj2 (compare_Eq b b) eq_refl).
  - destruct (String.compare a b) eqn:E; try reflexivity.
    now apply compare_Eq in E.
Qed.

(** ** Reading the statements *)

Lemma run_select_users_by_name (t : Tables) (name : string) :
  run_select t ((selectUserBaseQuery ++ " WHERE name = ? ") ++ " ORDER BY name ")%string
             [ArgString name]
  = Some (false, map (fun a => (a, [None]))
                     (sort_by by_name (named name (activists t)))).
Proof.
  read_query.
  unfold eval_select, apply_where, where_rows, apply_group, apply_order, apply_limit.
  cbn [sel_extra sel_where sel_group sel_order sel_limit].
  rewrite filter_of_map, map_map. cbn [fst snd].
  rewrite (sort_by_map (fun a : Activist => (a, [@None Event])) by_name)
    by reflexivity.
  unfold named. do 4 f_equal.
  apply filter_ext. intro a. apply satisfies_eq.
Qed.

Lemma run_select_users_all (t : Tables) :
  run_select t (selectUserBaseQuery ++ " ORDER BY name ")%string []
  = Some (false, map (fun a => (a, [None])) (sort_by by_name (activists t))).
Proof.
  read_query.
  unfold eval_select, apply_where, where_rows, apply_group, apply_order, apply_limit.
  cbn [sel_extra sel_where sel_group sel_order sel_limit].
  rewrite map_map. cbn [fst snd].
  now rewrite (sort_by_map (fun a : Activist => (a, [@None Event])) by_name)
    by reflexivity.
Qed.

Lemma getUsers_ok (db : DB) (name : string) :
  hd false (faults db) = false ->
  getUsers name db
  = Returns (map (scan_User_columns false)
                 (sort_by by_name (looked_up name (activists (committed db)))),
             None)
            (after_call (OpSelect (getUsers_query name) (getUsers_args name)) db).
Proof.
  intro Hf. unfold getUsers, getUsers_query, getUsers_args, looked_up.
  destruct (String.eqb name ""); cbn [negb];
    unfold db_Select, bind; rewrite store_call_eq, Hf;
    unfold get_db; cbn [committed after_call set_log set_faults].
  - rewrite run_select_users_all, scan_all_User, map_map. reflexivity.
  - cbn [app]. rewrite run_select_users_by_name, scan_all_User, map_map. reflexivity.
Qed.

Lemma getUsers_fault (db : DB) (name : string) :
  hd false (faults db) = true ->
  getUsers name db
  = Returns ([], Some (errors_Wrapf driver_ErrBadConn "failed to get users for %s"
                                    [ArgString name]))
            (after_call (OpSelect (getUsers_query name) (getUsers_args name)) db).
Proof.
  intro Hf. unfold getUsers, getUsers_query, getUsers_args.
  destruct (String.eqb name ""); cbn [negb];
    unfold db_Select, bind; rewrite store_call_eq, Hf; reflexivity.
Qed.

(** ** Lookup by name *)

Lemma GetUser_eq (db : DB) (name : string) :
  GetUser name db
  = Returns (GetUser_answer name db)
            (after_call (OpSelect (getUsers_query name) (getUsers_args name)) db).
Proof.
  unfold GetUser, GetUser_answer, bind at 1.
  destruct (hd false (faults db)) eqn:Hf.
  - rewrite (getUsers_fault _ _ Hf). reflexivity.
  - rewrite (getUsers_ok _ _ Hf).
    destruct (sort_by by_name (looked_up name (activists (committed db))))
      as [|a [|b l]]; try reflexivity.
    cbn [map]. unfold len. cbn [List.length].
    replace (Z.of_nat (S (S (List.length (map (scan_User_columns false) l)))) =? 0)
      with false by (symmetry; apply Z.eqb_neq; lia).
    replace (Z.of_nat (S (S (List.length (map (scan_User_columns false) l)))) >? 1)
      with true by (symmetry; apply Z.gtb_lt; lia).
    reflexivity.
Qed.

Lemma sort_by_shape {A : Type} (leb : A -> A -> bool) (l : list A) :
  match l with
  | [] => sort_by leb l = []
  | [a] => sort_by leb l = [a]
  | _ :: _ :: _ => exists a b l', sort_by leb l = a :: b :: l'
  end.
Proof.
  destruct l as [|a [|b l]]; try reflexivity.
  pose proof (Permutation_length (sort_by_perm leb (a :: b :: l))) as H.
  destruct (sort_by leb (a :: b :: l)) as [|x [|y l']]; try discriminate H.
  now exists x, y, l'.
Qed.

(** C4, as amended: for a non-empty name whose query reaches the store,
    [GetUser] returns the one matching row when there is exactly one,
    the not-found error when there is none and the too-many error when
    there are several; the store is only read. *)
Theorem GetUser_by_nonempty_name :
  forall (db : DB) (name : string),
    name <> "" ->
    hd false (faults db) = false ->
    exists db' : DB,
      GetUser name db
      = Returns (match named name (activists (committed db)) with
                 | [] => (User_zero, Some NotFound)
                 | [a] => (scan_User_columns false a, None)
                 | _ :: _ :: _ => (User_zero, Some AmbiguousResult)
                 end) db' /\
      committed db' = committed db.
Proof.
  intros db name Hname Hf.
  exists (after_call (OpSelect (getUsers_query name) (getUsers_args name)) db).
  split; [|reflexivity].
  rewrite GetUser_eq. f_equal.
  unfold GetUser_answer, looked_up. rewrite Hf.
  apply String.eqb_neq in Hname. rewrite Hname.
  pose proof (sort_by_shape by_name (named name (activists (committed db)))) as H.
  destruct (named name (activists (committed db))) as [|a [|b l]].
  - now rewrite H.
  - now rewrite H.
  - destruct H as (x & y & l' & ->). reflexivity.
Qed.

(** ** Get or create *)

Lemma run_select_get_by_name (t : Tables) (name : string) :
  run_select t (selectUserBaseQuery ++ " WHERE name = ? ")%string [ArgString name]
  = Some (false, map (fun a => (a, [None])) (named name (activists t))).
Proof.
  read_query.
  unfold eval_select, apply_where, where_rows, apply_group, apply_order, apply_limit.
  cbn [sel_extra sel_where sel_group sel_order sel_limit].
  rewrite filter_of_map, map_map. cbn [fst snd].
  unfold named. do 3 f_equal.
  apply filter_ext. intro a. apply satisfies_eq.
Qed.

Lemma named_app (name : string) (l l' : list Activist) :
  named name (l ++ l') = named name l ++ named name l'.
Proof. apply filter_app. Qed.

Lemma named_new_activist (name : string) (id : Z) :
  named name [new_activist id name] = [new_activist id name].
Proof. unfold named. cbn. now rewrite String.eqb_refl. Qed.

Lemma GetOrCreateUser_eq (db : DB) (name : string) :
  tx db = None ->
  let db0 := after_call (OpSelect (getUsers_query name) (getUsers_args name)) db in
  GetOrCreateUser name db
  = match snd (GetUser_answer name db) with
    | None => Returns (GetUser_answer name db) db0
    | Some _ => insert_path name db0
    end.
Proof.
  destruct db as [c t a f l]. cbn [tx]. intros ->. cbv zeta.
  unfold GetOrCreateUser. unfold bind at 1. rewrite GetUser_eq.
  destruct (GetUser_answer name _) as [u [e|]]; cbn [snd]; [|reflexivity].
  unfold insert_path.
  run_calls. cbn [hd tl].
  destruct (hd false (tl f)); [reflexivity|].
  destruct (hd false (tl (tl f))); [reflexivity|].
  change (String.eqb "INSERT INTO activists (name) VALUES (?)" insertActivistStmt)
    with true.
  run_calls. cbn [hd tl].
  destruct (hd false (tl (tl (tl f)))); [reflexivity|].
  rewrite run_select_get_by_name.
  cbn [activists set_activists]. rewrite named_app, named_new_activist.
  destruct (named name (activists c)) as [|a0 l0]; cbn [map app hd];
    cbn [dest_scan Dest_User scan_User fst]; run_calls; cbn [hd tl];
    destruct (hd false (tl (tl (tl (tl f))))); reflexivity.
Qed.

Lemma GetUser_answer_error (db db0 : DB) (name : string) (u0 : User) (e0 : Error) :
  GetUser name db = Returns (u0, Some e0) db0 ->
  snd (GetUser_answer name db) = Some e0.
Proof. rewrite GetUser_eq. intro H. injection H as H _. now rewrite H. Qed.

(** C8: whatever made the lookup fail (no row, several rows, or the
    store), [GetOrCreateUser] goes on to insert: when the later calls
    reach the store, it returns without error, the INSERT is in the log
    and the committed table has one more row of that name than before. *)
Theorem GetOrCreateUser_inserts_after_any_lookup_error :
  forall (db db0 : DB) (name : string) (u0 : User) (e0 : Error),
    tx db = None ->
    tl (faults db) = [] ->
    GetUser name db = Returns (u0, Some e0) db0 ->
    exists (u : User) (db' : DB),
      GetOrCreateUser name db = Returns (u, None) db' /\
      activists (committed db')
      = activists (committed db) ++ [new_activist (auto_increment db) name] /\
      named name (activists (committed db'))
      = named name (activists (committed db))
        ++ [new_activist (auto_increment db) name] /\
      In (OpExec "INSERT INTO activists (name) VALUES (?)" [ArgString name])
         (log db').
Proof.
  intros db db0 name u0 e0 Htx Htl Hget.
  rewrite (GetOrCreateUser_eq _ _ Htx), (GetUser_answer_error _ _ _ _ _ Hget).
  unfold insert_path.
  cbn [faults after_call set_log set_faults set_auto_increment].
  rewrite Htl. cbn [hd tl].
  do 2 eexists. split; [reflexivity|].
  cbn [committed set_committed set_log set_faults set_auto_increment
       after_call activists set_activists log].
  split; [reflexivity|]. split.
  - now rewrite named_app, named_new_activist.
  - rewrite !in_app_iff. cbn. tauto.
Qed.

(** C5, as amended: for a non-empty name that no row has, with the
    first five flags of the fault schedule standing for the lookup, the
    opening of the transaction, the insert, the re-read and the commit.
    If none of the last four fails, exactly one row with that name is
    added inside a transaction (select, begin, insert, re-read, commit)
    and returned, and a second call whose lookup reaches the store
    returns the same row and leaves the tables alone.  If one of them
    fails, an error is returned and the committed tables are unchanged.
    Either way no transaction is left open. *)
Theorem GetOrCreateUser_creates_once_or_rolls_back :
  forall (db : DB) (name : string)
         (f_sel f_begin f_exec f_get f_commit : bool) (rest : list bool),
    name <> "" ->
    tx db = None ->
    named name (activists (committed db)) = [] ->
    faults db = f_sel :: f_begin :: f_exec :: f_get :: f_commit :: false :: rest ->
    exists (r : User * error) (db1 : DB),
      GetOrCreateUser name db = Returns r db1 /\
      tx db1 = None /\
      if f_begin || f_exec || f_get || f_commit
      then fst r = User_zero /\ snd r <> None /\ committed db1 = committed db
      else
        let row := new_activist (auto_increment db) name in
        r = (scan_User_columns false row, None) /\
        committed db1
        = set_activists (activists (committed db) ++ [row]) (committed db) /\
        log db1
        = log db ++
          [OpSelect ((selectUserBaseQuery ++ " WHERE name = ? ")
                       ++ " ORDER BY name ")%string [ArgString name];
           OpBeginx;
           OpExec "INSERT INTO activists (name) VALUES (?)" [ArgString name];
           OpGet (selectUserBaseQuery ++ " WHERE name = ? ")%string [ArgString name];
           OpCommit] /\
        exists db2 : DB,
          GetOrCreateUser name db1 = Returns r db2 /\
          committed db2 = committed db1 /\
          log db2
          = log db1 ++
            [OpSelect ((selectUserBaseQuery ++ " WHERE name = ? ")
                         ++ " ORDER BY name ")%string [ArgString name]].
Proof.
  intros db name f_sel f_begin f_exec f_get f_commit rest Hname Htx Hnone Hf.
  rewrite (GetOrCreateUser_eq _ _ Htx).
  assert (Hq : getUsers_query name
               = ((selectUserBaseQuery ++ " WHERE name = ? ")
                    ++ " ORDER BY name ")%string)
    by (unfold getUsers_query; apply String.eqb_neq in Hname; now rewrite Hname).
  assert (Ha : getUsers_args name = [ArgString name])
    by (unfold getUsers_args; apply String.eqb_neq in Hname; now rewrite Hname).
  assert (Hl : forall l, looked_up name l = named name l)
    by (intro l; unfold looked_up; apply String.eqb_neq in Hname; now rewrite Hname).
  rewrite Hq, Ha.
  assert (Hlookup : exists e, snd (GetUser_answer name db) = Some e).
  { unfold GetUser_answer. rewrite Hf, Hl, Hnone. cbn [hd].
    destruct f_sel; cbn; eauto. }
  destruct Hlookup as [e ->].
  unfold insert_path.
  cbn [faults after_call set_log set_faults set_auto_increment].
  rewrite Hf. cbn [hd tl].
  destruct f_begin; cbn [orb].
  { do 2 eexists. split; [reflexivity|]. cbn. repeat split; [assumption|discriminate]. }
  destruct f_exec; cbn [orb].
  { do 2 eexists. split; [reflexivity|]. cbn. repeat split; [assumption|discriminate]. }
  destruct f_get; cbn [orb].
  { do 2 eexists. split; [reflexivity|]. cbn. repeat split; [assumption|discriminate]. }
  destruct f_commit; cbn [orb].
  { do 2 eexists. split; [reflexivity|]. cbn. repeat split; [assumption|discriminate]. }
  do 2 eexists. split; [reflexivity|].
  cbn [tx committed log set_committed set_log set_faults set_auto_increment
       after_call auto_increment].
  split; [assumption|]. cbv zeta. rewrite Hnone. cbn [hd].
  split; [reflexivity|]. split; [reflexivity|].
  split; [now rewrite <- !app_assoc|].
  match goal with
  | |- exists db2, GetOrCreateUser name ?d = _ /\ _ => set (db1 := d)
  end.
  assert (Htx1 : tx db1 = None) by exact Htx.
  rewrite (GetOrCreateUser_eq _ _ Htx1), Hq, Ha.
  assert (Hans : GetUser_answer name db1
                 = (scan_User_columns false (new_activist (auto_increment db) name),
                    None)).
  { unfold GetUser_answer. subst db1.
    cbn [faults committed hd activists set_activists set_committed set_log
         set_faults set_auto_increment after_call].
    rewrite Hl, named_app, Hnone, named_new_activist, Hf. reflexivity. }
  rewrite Hans. cbn [snd].
  eexists. split; [reflexivity|]. split; reflexivity.
Qed.

(** ** The joined listing *)

Lemma filter_nil {A : Type} (p : A -> bool) (l : list A) :
  filter p l = [] <-> (forall x, In x l -> p x = false).
Proof.
  induction l as [|x l IH]; simpl.
  - split; [intros _ y []|reflexivity].
  - destruct (p x) eqn:E; split.
    + discriminate.
    + intro H. rewrite (H x (or_introl eq_refl)) in E. discriminate.
    + intros H y [<-|Hy]; [assumption|]. now apply IH.
    + intro H. apply IH. intros y Hy. apply H. now right.
Qed.

Lemma joined_fst (t : Tables) (r : Row) :
  In r (joined t) -> In (fst r) (activists t).
Proof.
  unfold joined. rewrite in_flat_map. intros (a & Ha & Hr).
  assert (fst r = a) as ->; [|assumption].
  destruct (filter _ (event_attendance t)) as [|ea eas].
  - destruct Hr as [<-|[]]. reflexivity.
  - apply in_flat_map in Hr. destruct Hr as (ea' & _ & Hr).
    destruct (filter _ (events t)) as [|e es].
    + destruct Hr as [<-|[]]. reflexivity.
    + apply in_map_iff in Hr. destruct Hr as (e' & <- & _). reflexivity.
Qed.

Lemma joined_head (t : Tables) (a : Activist) (rest : list Activist) :
  activists t = a :: rest ->
  exists (e : option Event) (rows : list Row), joined t = (a, e) :: rows.
Proof.
  intro H. unfold joined. rewrite H. cbn [flat_map].
  destruct (filter _ (event_attendance t)) as [|ea eas].
  - now exists None, (flat_map
      (fun a0 =>
         match filter (fun ea => ea_activist_id ea =? a_id a0) (event_attendance t) with
         | [] => [(a0, None)]
         | ea :: eas =>
             flat_map
               (fun ea0 =>
                  match filter (fun e => e_id e =? ea_event_id ea0) (events t) with
                  | [] => [(a0, None)]
                  | e :: es => map (fun e0 => (a0, Some e0)) (e :: es)
                  end) (ea :: eas)
         end) rest).
  - cbn [flat_map].
    destruct (filter _ (events t)) as [|e es].
    + eexists None, _. cbn [app]. reflexivity.
    + eexists (Some e), _. cbn [map app]. reflexivity.
Qed.

Lemma add_row_head (c : Column) (r : Row) (g : Group) (gs : list Group) :
  exists (es : list (option Event)) (gs' : list Group),
    add_row c r (g :: gs) = (fst g, es) :: gs'.
Proof.
  cbn [add_row]. destruct (same_key c (fst g) (fst r)).
  - now exists (snd g ++ [snd r]), gs.
  - exists (snd g), (add_row c r gs). now destruct g.
Qed.

Lemma add_rows_head (c : Column) (rows : list Row) (g : Group) (gs : list Group) :
  exists (es : list (option Event)) (gs' : list Group),
    fold_left (fun gs r => add_row c r gs) rows (g :: gs) = (fst g, es) :: gs'.
Proof.
  revert g gs. induction rows as [|r rows IH]; intros g gs.
  - exists (snd g), gs. now destruct g.
  - cbn [fold_left].
    destruct (add_row_head c r g gs) as (es & gs' & ->).
    apply (IH (fst g, es) gs').
Qed.

Lemma group_by_head (c : Column) (r : Row) (rows : list Row) :
  exists (es : list (option Event)) (gs : list Group),
    group_by c (r :: rows) = (fst r, es) :: gs.
Proof.
  unfold group_by. cbn [fold_left add_row].
  apply (add_rows_head c rows (fst r, [snd r]) []).
Qed.

Lemma satisfies_eq_Z (x y : Z) : satisfies cmp_eq (x ?= y) = (x =? y).
Proof.
  destruct (Z.compare_spec x y) as [->|H|H]; cbn [satisfies]; symmetry.
  - apply Z.eqb_refl.
  - apply Z.eqb_neq. lia.
  - apply Z.eqb_neq. lia.
Qed.

Lemma run_select_extra_all (t : Tables) :
  run_select t (selectUserExtraBaseQuery ++ " GROUP BY a.id ")%string []
  = Some (true, group_by col_id (joined t)).
Proof. read_query. reflexivity. Qed.

Lemma run_select_extra_by_id (t : Tables) (id : Z) :
  run_select t ((selectUserExtraBaseQuery ++ " WHERE a.id = ? ")
                  ++ " GROUP BY a.id ")%string [ArgInt id]
  = Some (true, group_by col_id (filter (fun r => a_id (fst r) =? id) (joined t))).
Proof.
  read_query.
  unfold eval_select, apply_where, where_rows, apply_group, apply_order, apply_limit.
  cbn [sel_extra sel_where sel_group sel_order sel_limit].
  do 3 f_equal. apply filter_ext. intro r. apply satisfies_eq_Z.
Qed.

Lemma GetUsersExtra_ok (db : DB) (userID : Z) :
  hd false (faults db) = false ->
  GetUsersExtra userID db
  = Returns (map with_status
                 (map (scan_UserExtra true)
                      (group_by col_id (listed userID (committed db)))),
             None)
            (after_call (OpSelect (GetUsersExtra_query userID)
                                  (GetUsersExtra_args userID)) db).
Proof.
  intro Hf. unfold GetUsersExtra, GetUsersExtra_query, GetUsersExtra_args, listed.
  destruct (userID =? 0); cbn [negb];
    unfold db_Select, bind; rewrite store_call_eq, Hf;
    unfold get_db; cbn [committed after_call set_log set_faults].
  - rewrite run_select_extra_all, scan_all_UserExtra. reflexivity.
  - cbn [app]. rewrite run_select_extra_by_id, scan_all_UserExtra. reflexivity.
Qed.

Lemma getUsersJSON_ok (db : DB) (userID : Z) :
  hd false (faults db) = false ->
  getUsersJSON userID db
  = Returns (map buildUserJSON
                 (map with_status
                      (map (scan_UserExtra true)
                           (group_by col_id (listed userID (committed db))))),
             None)
            (after_call (OpSelect (GetUsersExtra_query userID)
                                  (GetUsersExtra_args userID)) db).
Proof.
  intro Hf. unfold getUsersJSON, bind. rewrite (GetUsersExtra_ok _ _ Hf).
  now rewrite buildUserJSONArray_map.
Qed.

Lemma listed_unknown (t : Tables) (userID : Z) :
  userID <> 0 ->
  with_id userID (activists t) = [] ->
  listed userID t = [].
Proof.
  intros Hid Hnone. unfold listed.
  apply Z.eqb_neq in Hid. rewrite Hid.
  apply filter_nil. intros r Hr. apply joined_fst in Hr.
  exact (proj1 (filter_nil _ _) Hnone _ Hr).
Qed.

(** C1, at the failing inputs: for an id other than 0 that no row has,
    when the query reaches the store, [GetUserJSON] does not return a
    not-found error: it indexes the empty result and panics. *)
Theorem GetUserJSON_unknown_id_panics :
  forall (db : DB) (userID : Z),
    userID <> 0 ->
    hd false (faults db) = false ->
    with_id userID (activists (committed db)) = [] ->
    exists db' : DB,
      GetUserJSON userID db = Panics "runtime error: index out of range" db'.
Proof.
  intros db userID Hid Hf Hnone.
  unfold GetUserJSON, bind.
  rewrite (getUsersJSON_ok _ _ Hf), (listed_unknown _ _ Hid Hnone).
  cbn. eexists. reflexivity.
Qed.

(** C10: the id 0 lifts the filter.  When the query reaches the store
    and the table is not empty, [GetUserJSON 0] issues the unfiltered
    listing query and returns the first record of [GetUsersJSON], which
    is the record of the first row of the table, whatever its id and
    whether or not some row has id 0. *)
Theorem GetUserJSON_zero_is_first_of_listing :
  forall (db : DB) (a : Activist) (rest : list Activist),
    hd false (faults db) = false ->
    activists (committed db) = a :: rest ->
    exists (j : UserJSON) (others : list UserJSON) (db' : DB),
      GetUsersJSON db = Returns (j :: others, None) db' /\
      GetUserJSON 0 db = Returns (j, None) db' /\
      UserJSON.ID j = a_id a /\
      UserJSON.Name j = a_name a /\
      log db' = log db ++ [OpSelect (selectUserExtraBaseQuery ++ " GROUP BY a.id ")%string []].
Proof.
  intros db a rest Hf Ha.
  unfold GetUsersJSON, GetUserJSON, bind. rewrite (getUsersJSON_ok _ _ Hf).
  change (listed 0 (committed db)) with (joined (committed db)).
  destruct (joined_head _ _ _ Ha) as (e & rows & ->).
  destruct (group_by_head col_id (a, e) rows) as (es & gs & ->).
  cbn [map fst]. do 3 eexists. split; [reflexivity|].
  split; [reflexivity|]. repeat split.
Qed.

(** ** The order on names *)

Lemma compare_Lt_trans (a b c : string) :
  String.compare a b = Lt -> String.compare b c = Lt -> String.compare a c = Lt.
Proof.
  intros H1 H2. apply String_as_OT.cmp_lt.
  apply String_as_OT.lt_trans with b; now apply String_as_OT.cmp_lt.
Qed.

Lemma string_leb_trans (a b c : string) :
  String.leb a b = true -> String.leb b c = true -> String.leb a c = true.
Proof.
  unfold String.leb.
  destruct (String.compare a b) eqn:Hab; [| |discriminate]; intros _;
    destruct (String.compare b c) eqn:Hbc; [| |discriminate| | |discriminate];
    intros _.
  - apply compare_Eq in Hab, Hbc. subst.
    now rewrite (proj2 (compare_Eq c c) eq_refl).
  - apply compare_Eq in Hab. subst. now rewrite Hbc.
  - apply compare_Eq in Hbc. subst. now rewrite Hab.
  - now rewrite (compare_Lt_trans _ _ _ Hab Hbc).
Qed.

Lemma string_leb_neq_ltb (a b : string) :
  String.leb a b = true -> a <> b -> String.ltb a b = true.
Proof.
  unfold String.leb, String.ltb.
  destruct (String.compare a b) eqn:E; try easy.
  apply compare_Eq in E. contradiction.
Qed.

Lemma string_ltb_irrefl (a : string) : String.ltb a a = false.
Proof. unfold String.ltb. now rewrite (proj2 (compare_Eq a a) eq_refl). Qed.

Lemma satisfies_lt (a b : string) :
  satisfies cmp_lt (String.compare a b) = String.ltb a b.
Proof. unfold String.ltb. now destruct (String.compare a b). Qed.

Lemma satisfies_gt (a b : string) :
  satisfies cmp_gt (String.compare a b) = String.ltb b a.
Proof.
  unfold String.ltb. rewrite (String.compare_antisym a b).
  now destruct (String.compare b a).
Qed.

(** ** Sorted output *)

Section Sorting.

Context {A : Type} (leb : A -> A -> bool).
Hypothesis leb_total : forall x y, leb x y = true \/ leb y x = true.
Hypothesis leb_trans : forall x y z, leb x y = true -> leb y z = true -> leb x z = true.

Lemma insert_by_sorted (x : A) (l : list A) :
  StronglySorted (fun a b => leb a b = true) l ->
  StronglySorted (fun a b => leb a b = true) (insert_by leb x l).
Proof.
  induction 1 as [|y l Hl IH Hy]; cbn [insert_by].
  - repeat constructor.
  - destruct (leb x y) eqn:E.
    + constructor; [now constructor|].
      constructor; [assumption|].
      eapply Forall_impl; [|exact Hy]. intros z Hz. now apply leb_trans with y.
    + constructor; [assumption|].
      assert (Hyx : leb y x = true) by (destruct (leb_total x y); congruence).
      apply Forall_forall. intros z Hz.
      apply (Permutation_in _ (insert_by_perm leb x l)) in Hz.
      destruct Hz as [<-|Hz]; [assumption|].
      now apply (proj1 (Forall_forall _ _) Hy).
Qed.

Lemma sort_by_sorted (l : list A) :
  StronglySorted (fun a b => leb a b = true) (sort_by leb l).
Proof.
  induction l as [|x l IH]; cbn [sort_by fold_right]; [constructor|].
  now apply insert_by_sorted.
Qed.

End Sorting.

Lemma StronglySorted_firstn {A : Type} (R : A -> A -> Prop) (n : nat) (l : list A) :
  StronglySorted R l -> StronglySorted R (firstn n l).
Proof.
  intro H. revert n. induction H as [|x l Hl IH Hx]; intro n.
  - rewrite firstn_nil. constructor.
  - destruct n as [|n]; cbn [firstn]; constructor; [apply IH|].
    apply Forall_forall. intros y Hy.
    assert (Hin : In y l).
    { rewrite <- (firstn_skipn n l). apply in_or_app. now left. }
    now apply (proj1 (Forall_forall _ _) Hx).
Qed.

(** ** Grouping *)

Lemma add_row_reps (c : Column) (r : Row) (gs : list Group) :
  map fst (add_row c r gs)
  = map fst gs ++
    (if existsb (fun g => same_key c (fst g) (fst r)) gs then [] else [fst r]).
Proof.
  induction gs as [|g gs IH]; cbn [add_row existsb map]; [reflexivity|].
  destruct (same_key c (fst g) (fst r)); cbn [orb map fst].
  - now rewrite app_nil_r.
  - now rewrite IH.
Qed.

Lemma same_name_iff (a b : Activist) :
  same_key col_name a b = true <-> a_name a = a_name b.
Proof. apply String.eqb_eq. Qed.

Lemma group_fold_reps_in (c : Column) (rows : list Row) (acc : list Group)
      (a : Activist) :
  In a (map fst (fold_left (fun gs r => add_row c r gs) rows acc)) ->
  In a (map fst acc) \/ In a (map fst rows).
Proof.
  revert acc. induction rows as [|r rows IH]; intro acc; cbn [fold_left map].
  - now left.
  - intro H. apply IH in H. destruct H as [H|H]; [|now right; right].
    rewrite add_row_reps in H. apply in_app_or in H. destruct H as [H|H].
    + now left.
    + right. left.
      destruct (existsb _ acc); [destruct H|].
      destruct H as [H|[]]. exact H.
Qed.

Lemma group_fold_mono (c : Column) (rows : list Row) (acc : list Group)
      (a : Activist) :
  In a (map fst acc) ->
  In a (map fst (fold_left (fun gs r => add_row c r gs) rows acc)).
Proof.
  revert acc. induction rows as [|r rows IH]; intros acc H; cbn [fold_left].
  - exact H.
  - apply IH. rewrite add_row_reps. apply in_or_app. now left.
Qed.

Lemma group_fold_cover (rows : list Row) (acc : list Group) (r : Row) :
  In r rows ->
  In (a_name (fst r))
     (map a_name (map fst (fold_left (fun gs r => add_row col_name r gs) rows acc))).
Proof.
  revert acc. induction rows as [|r0 rows IH]; intros acc H; [destruct H|].
  cbn [fold_left]. destruct H as [->|H]; [|now apply IH].
  destruct (existsb (fun g => same_key col_name (fst g) (fst r)) acc) eqn:E.
  - apply existsb_exists in E. destruct E as (g & Hg & Hk).
    apply same_name_iff in Hk. rewrite <- Hk.
    apply in_map, group_fold_mono. rewrite add_row_reps.
    apply in_or_app. left. now apply in_map.
  - apply in_map, group_fold_mono. rewrite add_row_reps, E.
    apply in_or_app. right. now left.
Qed.

Lemma group_fold_nodup (rows : list Row) (acc : list Group) :
  NoDup (map a_name (map fst acc)) ->
  NoDup (map a_name
             (map fst (fold_left (fun gs r => add_row col_name r gs) rows acc))).
Proof.
  revert acc. induction rows as [|r rows IH]; intros acc H; cbn [fold_left].
  - exact H.
  - apply IH. rewrite add_row_reps.
    destruct (existsb (fun g => same_key col_name (fst g) (fst r)) acc) eqn:E.
    + now rewrite app_nil_r.
    + rewrite map_app. cbn [map].
      apply NoDup_app; [assumption|repeat constructor; intros []|].
      intros n Hn [<-|[]].
      apply in_map_iff in Hn. destruct Hn as (a & Ha & Hin).
      apply in_map_iff in Hin. destruct Hin as (g & <- & Hg).
      assert (Hk : same_key col_name (fst g) (fst r) = true)
        by now apply same_name_iff.
      assert (Hex : existsb (fun g => same_key col_name (fst g) (fst r)) acc = true)
        by (apply existsb_exists; now exists g).
      congruence.
Qed.

(** One group per name: the names of the groups are those of the rows,
    each once. *)
Lemma group_by_name_names (rows : list Row) (n : string) :
  In n (map a_name (map fst (group_by col_name rows)))
  <-> In n (map a_name (map fst rows)).
Proof.
  unfold group_by. split.
  - intro H. apply in_map_iff in H. destruct H as (a & <- & Ha).
    apply group_fold_reps_in in Ha. destruct Ha as [[]|Ha]. now apply in_map.
  - intro H. apply in_map_iff in H. destruct H as (a & <- & Ha).
    apply in_map_iff in Ha. destruct Ha as (r & <- & Hr).
    now apply group_fold_cover.
Qed.

Lemma group_by_name_nodup (rows : list Row) :
  NoDup (map a_name (map fst (group_by col_name rows))).
Proof. apply group_fold_nodup. constructor. Qed.

Lemma joined_reps (t : Tables) (a : Activist) :
  In a (map fst (joined t)) <-> In a (activists t).
Proof.
  split.
  - intro H. apply in_map_iff in H. destruct H as (r & <- & Hr).
    now apply joined_fst.
  - intro H. apply in_split in H. destruct H as (l1 & l2 & Hl).
    unfold joined. rewrite Hl, flat_map_app, map_app. apply in_or_app. right.
    destruct (joined_head {| activists := a :: l2;
                             event_attendance := event_attendance t;
                             events := events t |} a l2 eq_refl)
      as (e & rows & Hj).
    unfold joined in Hj. cbn [activists event_attendance events] in Hj.
    rewrite Hj. now left.
Qed.

(** ** The range listing *)

Lemma getUserRange_ok (db : DB) (o : UserOptionsJSON) :
  hd false (faults db) = false ->
  exists (q : string) (args : list Arg),
    getUserRange o db
    = Returns (map (scan_UserExtra true) (range_groups o (committed db)), None)
              (after_call (OpSelect q args) db).
Proof.
  intro Hf.
  unfold getUserRange, range_groups, range_filter, range_page, beyond.
  destruct (String.eqb (opt_Name o) "");
    destruct (opt_Order o =? descOrder);
    destruct (opt_Limit o >? 0) eqn:Hl; cbn [negb app];
    unfold db_Select, bind; rewrite store_call_eq, Hf;
    unfold get_db; cbn [committed after_call set_log set_faults];
    read_query;
    cbv beta iota zeta delta
      [eval_select apply_where where_rows apply_group apply_order apply_limit
       sel_extra sel_where sel_group sel_order sel_limit];
    try (replace (opt_Limit o <? 0) with false
          by (symmetry; apply Z.ltb_ge; apply Z.gtb_lt in Hl; lia));
    cbv beta iota;
    try rewrite (filter_ext _ _ (fun r : Row => satisfies_gt (a_name (fst r)) (opt_Name o)));
    try rewrite (filter_ext _ _ (fun r : Row => satisfies_lt (a_name (fst r)) (opt_Name o)));
    rewrite scan_all_UserExtra; do 2 eexists; reflexivity.
Qed.

Lemma StronglySorted_strict_key {A K : Type} (key : A -> K) (R S : A -> A -> Prop)
      (l : list A) :
  (forall x y, key x <> key y -> R x y -> S x y) ->
  NoDup (map key l) -> StronglySorted R l -> StronglySorted S l.
Proof.
  intros HRS Hnd H. induction H as [|x l Hl IH Hx]; [constructor|].
  cbn [map] in Hnd. inversion Hnd as [|? ? Hnotin Hnd']; subst.
  constructor; [now apply IH|].
  apply Forall_forall. intros y Hy. apply HRS.
  - intro E. apply Hnotin. rewrite E. now apply in_map.
  - now apply (proj1 (Forall_forall _ _) Hx).
Qed.

Lemma StronglySorted_map {A B : Type} (f : A -> B) (R : B -> B -> Prop) (l : list A) :
  StronglySorted (fun x y => R (f x) (f y)) l -> StronglySorted R (map f l).
Proof.
  induction 1 as [|x l Hl IH Hx]; cbn [map]; constructor; [assumption|].
  apply Forall_forall. intros y Hy. apply in_map_iff in Hy.
  destruct Hy as (z & <- & Hz). now apply (proj1 (Forall_forall _ _) Hx).
Qed.

Lemma group_leb_total (desc : bool) (g h : Group) :
  group_leb col_name desc g h = true \/ group_leb col_name desc h g = true.
Proof. unfold group_leb, column_leb. destruct desc; apply String.leb_total. Qed.

Lemma group_leb_trans (desc : bool) (g h k : Group) :
  group_leb col_name desc g h = true -> group_leb col_name desc h k = true ->
  group_leb col_name desc g k = true.
Proof.
  unfold group_leb, column_leb. destruct desc; intros H1 H2.
  - exact (string_leb_trans _ _ _ H2 H1).
  - exact (string_leb_trans _ _ _ H1 H2).
Qed.

Lemma group_leb_strict (order : Z) (g h : Group) :
  group_name g <> group_name h ->
  group_leb col_name (order =? descOrder) g h = true ->
  beyond order (group_name g) (group_name h) = true.
Proof.
  unfold group_leb, column_leb, beyond, group_name.
  destruct (order =? descOrder); intros Hne Hle.
  - apply string_leb_neq_ltb; [assumption|]. intro E. now apply Hne.
  - now apply string_leb_neq_ltb.
Qed.

Lemma names_map_fst (gs : list Group) :
  map group_name gs = map a_name (map fst gs).
Proof. now rewrite map_map. Qed.

(** The groups of the listing, before the page is cut: strictly ordered
    in the direction of the order. *)
Lemma sorted_groups_in_order (order : Z) (rows : list Row) :
  StronglySorted (fun g h => beyond order (group_name g) (group_name h) = true)
    (sort_by (group_leb col_name (order =? descOrder)) (group_by col_name rows)).
Proof.
  apply (StronglySorted_strict_key group_name
           (fun g h => group_leb col_name (order =? descOrder) g h = true)).
  - intros g h. apply group_leb_strict.
  - apply (Permutation_NoDup
             (l := map group_name (group_by col_name rows))).
    + apply Permutation_map. symmetry. apply sort_by_perm.
    + rewrite names_map_fst. apply group_by_name_nodup.
  - apply sort_by_sorted.
    + apply group_leb_total.
    + apply group_leb_trans.
Qed.

Lemma sorted_groups_names (desc : bool) (rows : list Row) (n : string) :
  In n (map group_name (sort_by (group_leb col_name desc) (group_by col_name rows)))
  <-> In n (map a_name (map fst rows)).
Proof.
  rewrite <- group_by_name_names, <- names_map_fst.
  split; apply Permutation_in, Permutation_map;
    [apply sort_by_perm|symmetry; apply sort_by_perm].
Qed.

Lemma range_page_incl (o : UserOptionsJSON) (gs : list Group) (g : Group) :
  In g (range_page o gs) -> In g gs.
Proof.
  unfold range_page. destruct (opt_Limit o >? 0); [|easy].
  intro H. rewrite <- (firstn_skipn (Z.to_nat (opt_Limit o)) gs).
  apply in_or_app. now left.
Qed.

Lemma range_page_sorted (o : UserOptionsJSON) (R : Group -> Group -> Prop) gs :
  StronglySorted R gs -> StronglySorted R (range_page o gs).
Proof.
  unfold range_page. destruct (opt_Limit o >? 0); [|easy].
  apply StronglySorted_firstn.
Qed.

Lemma range_groups_set_Limit (o : UserOptionsJSON) (t : Tables) :
  range_groups o t
  = (if opt_Limit o >? 0
     then firstn (Z.to_nat (opt_Limit o)) (range_groups (set_Limit 0 o) t)
     else range_groups (set_Limit 0 o) t).
Proof. reflexivity. Qed.

Lemma range_filter_names (o : UserOptionsJSON) (t : Tables) (n : string) :
  In n (map a_name (map fst (range_filter o (joined t))))
  <-> In n (map a_name (activists t)) /\
      (opt_Name o = "" \/ beyond (opt_Order o) (opt_Name o) n = true).
Proof.
  unfold range_filter. destruct (String.eqb_spec (opt_Name o) "") as [E|E].
  - split.
    + intro H. split; [|now left].
      apply in_map_iff in H. destruct H as (a & <- & Ha).
      apply in_map, joined_reps, Ha.
    + intros [H _]. apply in_map_iff in H. destruct H as (a & <- & Ha).
      apply in_map, joined_reps, Ha.
  - split.
    + intro H. apply in_map_iff in H. destruct H as (a & <- & Ha).
      apply in_map_iff in Ha. destruct Ha as (r & <- & Hr).
      apply filter_In in Hr. destruct Hr as [Hr Hb]. split; [|now right].
      apply in_map, joined_reps. now apply in_map.
    + intros [H [Hn|Hb]]; [contradiction|].
      apply in_map_iff in H. destruct H as (a & <- & Ha).
      apply joined_reps in Ha. apply in_map_iff in Ha. destruct Ha as (r & <- & Hr).
      apply in_map, in_map. apply filter_In. now split.
Qed.

Lemma getUserRange_fault (db : DB) (o : UserOptionsJSON) :
  hd false (faults db) = true ->
  exists (q : string) (args : list Arg),
    getUserRange o db
    = Returns ([], Some (errors_Wrapf driver_ErrBadConn
                           "failed to retrieve %d users before/after %s"
                           [ArgInt (opt_Limit o); ArgString (opt_Name o)]))
              (after_call (OpSelect q args) db).
Proof.
  intro Hf. unfold getUserRange.
  destruct (String.eqb (opt_Name o) "");
    destruct (opt_Order o =? descOrder);
    destruct (opt_Limit o >? 0); cbn [negb app];
    unfold db_Select, bind; rewrite store_call_eq, Hf;
    do 2 eexists; reflexivity.
Qed.

Lemma names_of_scanned (gs : list Group) :
  map name_of (map (scan_UserExtra true) gs) = map group_name gs.
Proof. rewrite map_map. reflexivity. Qed.

Lemma beyond_irrefl (order : Z) (n : string) : beyond order n n = false.
Proof. unfold beyond. destruct (order =? descOrder); apply string_ltb_irrefl. Qed.

Lemma range_groups_beyond (o : UserOptionsJSON) (t : Tables) (g : Group) :
  opt_Name o <> "" ->
  In g (range_groups o t) ->
  In (group_name g) (map a_name (activists t)) /\
  beyond (opt_Order o) (opt_Name o) (group_name g) = true.
Proof.
  intros Hname Hg. unfold range_groups in Hg. apply range_page_incl in Hg.
  apply (in_map group_name) in Hg.
  apply sorted_groups_names, range_filter_names in Hg.
  destruct Hg as [Hin [E|Hb]]; [contradiction|now split].
Qed.

(** C2: with a non-empty anchor and a valid order, [getUserRange]
    returns rows whose names all lie strictly beyond the anchor (greater
    when ascending, smaller when descending), strictly ordered in that
    direction, the anchor's name not among them.  When the query reaches
    the store there is no error, and without a limit the names returned
    are exactly the names of the table beyond the anchor. *)
Theorem getUserRange_after_anchor :
  forall (db : DB) (o : UserOptionsJSON),
    opt_Name o <> "" ->
    opt_Order o = ascOrder \/ opt_Order o = descOrder ->
    exists (users : list UserExtra) (err : error) (db' : DB),
      getUserRange o db = Returns (users, err) db' /\
      Forall (fun u => beyond (opt_Order o) (opt_Name o) (name_of u) = true) users /\
      StronglySorted (in_order (opt_Order o)) users /\
      ~ In (opt_Name o) (map name_of users) /\
      (hd false (faults db) = false ->
       err = None /\
       (opt_Limit o <= 0 ->
        forall n : string,
          In n (map name_of users)
          <-> In n (map a_name (activists (committed db))) /\
              beyond (opt_Order o) (opt_Name o) n = true)).
Proof.
  intros db o Hname _.
  destruct (hd false (faults db)) eqn:Hf.
  { destruct (getUserRange_fault db o Hf) as (q & args & E).
    do 3 eexists. split; [exact E|].
    repeat split; try constructor; try discriminate. intros []. }
  destruct (getUserRange_ok db o Hf) as (q & args & E).
  do 3 eexists. split; [exact E|].
  assert (Hall : Forall (fun u => beyond (opt_Order o) (opt_Name o) (name_of u) = true)
                        (map (scan_UserExtra true) (range_groups o (committed db)))).
  { apply Forall_forall. intros u Hu. apply in_map_iff in Hu.
    destruct Hu as (g & <- & Hg).
    exact (proj2 (range_groups_beyond _ _ _ Hname Hg)). }
  split; [exact Hall|]. split; [|split].
  - apply StronglySorted_map. unfold range_groups. apply range_page_sorted.
    exact (sorted_groups_in_order (opt_Order o)
             (range_filter o (joined (committed db)))).
  - intro Hin. apply in_map_iff in Hin. destruct Hin as (u & Hu & Hin).
    apply (proj1 (Forall_forall _ _) Hall) in Hin.
    rewrite Hu, beyond_irrefl in Hin. discriminate.
  - intros _. split; [reflexivity|].
    intros Hlimit n. rewrite names_of_scanned.
    unfold range_groups, range_page.
    replace (opt_Limit o >? 0) with false
      by (symmetry; rewrite Z.gtb_ltb; apply Z.ltb_ge; lia).
    rewrite sorted_groups_names, range_filter_names. tauto.
Qed.

End Properties.

(** * Further properties of the repository *)

Section Coverage.

Context {env : Env}.

(** ** The plain listing *)

Lemma by_name_total (a b : Activist) : by_name a b = true \/ by_name b a = true.
Proof. apply String.leb_total. Qed.

Lemma by_name_trans (a b c : Activist) :
  by_name a b = true -> by_name b c = true -> by_name a c = true.
Proof. apply string_leb_trans. Qed.

(** X1: when the query reaches the store, [GetUsers] returns every row
    of the table exactly once (a permutation of the scanned rows), in
    ascending order of name; the pledge flag of every record is 0, the
    statement not selecting that column; the store is only read. *)
Theorem GetUsers_every_row_by_name :
  forall db : DB,
    hd false (faults db) = false ->
    exists (users : list User) (db' : DB),
      GetUsers db = Returns (users, None) db' /\
      Permutation users (map (scan_User_columns false) (activists (committed db))) /\
      StronglySorted (fun u v => String.leb (Name u) (Name v) = true) users /\
      Forall (fun u => LiberationPledge u = 0) users /\
      committed db' = committed db.
Proof.
  intros db Hf. unfold GetUsers. rewrite (getUsers_ok _ _ Hf).
  do 2 eexists. split; [reflexivity|].
  change (looked_up "" (activists (committed db))) with (activists (committed db)).
  split; [|split; [|split]].
  - apply Permutation_map, sort_by_perm.
  - apply StronglySorted_map.
    apply (sort_by_sorted by_name by_name_total by_name_trans).
  - apply Forall_forall. intros u Hu. apply in_map_iff in Hu.
    destruct Hu as (a & <- & _). reflexivity.
  - reflexivity.
Qed.

(** ** Get or create, whatever the store does *)

Lemma named_name (name : string) (l : list Activist) (a : Activist) :
  In a (named name l) -> a_name a = name.
Proof.
  unfold named. intro H. apply filter_In in H. now apply String.eqb_eq.
Qed.

Lemma GetUser_answer_name (db : DB) (name : string) (u : User) :
  name <> "" ->
  GetUser_answer name db = (u, None) ->
  Name u = name.
Proof.
  intros Hname. unfold GetUser_answer, looked_up.
  apply String.eqb_neq in Hname. rewrite Hname.
  destruct (hd false (faults db)); [discriminate|].
  pose proof (sort_by_perm by_name (named name (activists (committed db)))) as Hp.
  destruct (sort_by by_name (named name (activists (committed db))))
    as [|a [|b l]]; try discriminate.
  intro E. injection E as <-. cbn [Name scan_User_columns].
  apply (named_name name (activists (committed db))).
  apply (Permutation_in _ Hp). now left.
Qed.

(** X2: when exactly one row has the (non-empty) name and the lookup
    reaches the store, [GetOrCreateUser] returns that row after one
    SELECT and nothing else: no transaction is opened, no statement
    written, the counter and the tables are untouched. *)
Theorem GetOrCreateUser_existing_row :
  forall (db : DB) (name : string) (a : Activist),
    name <> "" ->
    hd false (faults db) = false ->
    named name (activists (committed db)) = [a] ->
    exists db' : DB,
      GetOrCreateUser name db = Returns (scan_User_columns false a, None) db' /\
      log db'
      = log db ++ [OpSelect ((selectUserBaseQuery ++ " WHERE name = ? ")
                               ++ " ORDER BY name ")%string [ArgString name]] /\
      committed db' = committed db /\
      tx db' = tx db /\
      auto_increment db' = auto_increment db.
Proof.
  intros db name a Hname Hf Hone.
  unfold GetOrCreateUser. unfold bind at 1. rewrite GetUser_eq.
  unfold GetUser_answer, looked_up, getUsers_query, getUsers_args.
  apply String.eqb_neq in Hname. rewrite Hf, Hname, Hone.
  cbn [sort_by fold_right insert_by].
  eexists. split; [reflexivity|]. repeat split.
Qed.

(** X3: for every name and every fault schedule, a call made with no
    transaction open returns (it does not panic) and leaves no
    transaction open.  If it returns an error, the record is the zero
    record and the committed tables are what they were.  If it returns no
    error, the committed tables are either what they were or have exactly
    one more row, appended, with the requested name and the next id; and
    for a non-empty name the record returned carries that name. *)
Theorem GetOrCreateUser_all_or_nothing :
  forall (db : DB) (name : string),
    tx db = None ->
    exists (u : User) (err : error) (db' : DB),
      GetOrCreateUser name db = Returns (u, err) db' /\
      tx db' = None /\
      (err <> None -> u = User_zero /\ committed db' = committed db) /\
      (err = None ->
       (committed db' = committed db \/
        committed db'
        = set_activists
            (activists (committed db) ++ [new_activist (auto_increment db) name])
            (committed db)) /\
       (name <> "" -> Name u = name)).
Proof.
  intros db name Htx. rewrite (GetOrCreateUser_eq _ _ Htx).
  destruct (GetUser_answer name db) as [u0 [e0|]] eqn:Hans; cbn [snd].
  - unfold insert_path.
    cbn [faults after_call set_log set_faults set_auto_increment].
    destruct (hd false (tl (faults db)));
      [|destruct (hd false (tl (tl (faults db))));
        [|destruct (hd false (tl (tl (tl (faults db)))));
          [|destruct (hd false (tl (tl (tl (tl (faults db))))))]]];
      do 3 eexists; (split; [reflexivity|]);
      (split; [exact Htx|]);
      (split; [intro H; try (exfalso; apply H; reflexivity)
              |intro H; try discriminate H]);
      try (split; reflexivity).
    split; [right; reflexivity|].
    intros Hname.
    cbn [auto_increment committed after_call set_log set_faults].
    destruct (named name (activists (committed db))) as [|a l] eqn:Hn; cbn [hd].
    + reflexivity.
    + apply (named_name name (activists (committed db))). rewrite Hn. now left.
  - do 3 eexists. split; [reflexivity|]. split; [exact Htx|].
    split; [congruence|]. intros _. split; [now left|].
    intro Hname. exact (GetUser_answer_name _ _ _ Hname Hans).
Qed.

(** ** Updating, and reading back *)

Lemma UpdateActivistData_eq (db : DB) (user : UserExtra) :
  UpdateActivistData user db
  = if hd false (faults db)
    then Returns (0, Some (errors_Wrap driver_ErrBadConn
                                       "failed to update activist data"))
                 (after_call (OpNamedExec updateActivistStmt user) db)
    else Returns (ID (UserExtra_User user), None)
                 (set_committed
                    (set_activists
                       (map (update_activist user) (activists (committed db)))
                       (committed db))
                    (after_call (OpNamedExec updateActivistStmt user) db)).
Proof.
  unfold UpdateActivistData, db_NamedExec, bind.
  rewrite store_call_eq, String.eqb_refl.
  now destruct (hd false (faults db)).
Qed.

Lemma update_activist_id (user : UserExtra) (a : Activist) :
  a_id (update_activist user a) = a_id a.
Proof. unfold update_activist. now destruct (a_id a =? ID (UserExtra_User user)). Qed.

(** X4: [UpdateActivistData] always returns.  On an error it returns
    id 0 and the committed tables are what they were; otherwise it
    returns the id of the record.  In both cases the table keeps its
    rows' ids in place, every row with another id is unchanged at its
    position, and the event tables are untouched. *)
Theorem UpdateActivistData_frame :
  forall (db : DB) (user : UserExtra),
    exists (id : Z) (err : error) (db' : DB),
      UpdateActivistData user db = Returns (id, err) db' /\
      (err <> None -> id = 0 /\ committed db' = committed db) /\
      (err = None -> id = ID (UserExtra_User user)) /\
      map a_id (activists (committed db')) = map a_id (activists (committed db)) /\
      (forall (i : nat) (a : Activist),
          nth_error (activists (committed db)) i = Some a ->
          a_id a <> ID (UserExtra_User user) ->
          nth_error (activists (committed db')) i = Some a) /\
      event_attendance (committed db') = event_attendance (committed db) /\
      events (committed db') = events (committed db).
Proof.
  intros db user. rewrite UpdateActivistData_eq.
  destruct (hd false (faults db)); do 3 eexists; (split; [reflexivity|]).
  - split; [intros _; split; reflexivity|].
    split; [discriminate|]. repeat split. intros i a Hi _. exact Hi.
  - split; [intro H; now contradiction H|].
    split; [reflexivity|].
    cbn [committed set_committed after_call set_log set_faults
         activists event_attendance events set_activists].
    split; [|split; [|split; reflexivity]].
    + rewrite map_map. apply map_ext. apply update_activist_id.
    + intros i a Hi Hne. rewrite (map_nth_error _ _ _ Hi). f_equal.
      unfold update_activist. apply Z.eqb_neq in Hne. now rewrite Hne.
Qed.

Lemma add_rows_same_key (c : Column) (rows : list Row) (a : Activist)
      (es : list (option Event)) :
  (forall r, In r rows -> same_key c a (fst r) = true) ->
  fold_left (fun gs r => add_row c r gs) rows [(a, es)] = [(a, es ++ map snd rows)].
Proof.
  revert es. induction rows as [|r rows IH]; intros es H; cbn [fold_left map].
  - now rewrite app_nil_r.
  - cbn [add_row fst snd]. rewrite (H r (or_introl eq_refl)).
    rewrite IH by (intros r' Hr'; apply H; now right).
    now rewrite <- app_assoc.
Qed.

Lemma group_by_same_key (c : Column) (r : Row) (rows : list Row) :
  (forall r', In r' rows -> same_key c (fst r) (fst r') = true) ->
  group_by c (r :: rows) = [(fst r, map snd (r :: rows))].
Proof.
  intro H. unfold group_by. cbn [fold_left add_row].
  now rewrite add_rows_same_key.
Qed.

Lemma listed_same_id (t : Tables) (id : Z) (r r' : Row) :
  id <> 0 -> In r (listed id t) -> In r' (listed id t) ->
  same_key col_id (fst r) (fst r') = true.
Proof.
  unfold listed. intro Hid. apply Z.eqb_neq in Hid. rewrite Hid.
  intros H H'. apply filter_In in H, H'.
  destruct H as [_ H], H' as [_ H'].
  apply Z.eqb_eq in H, H'. cbn [same_key]. apply Z.eqb_eq. congruence.
Qed.

Lemma listed_one_group (t : Tables) (id : Z) (r : Row) (rows : list Row) :
  id <> 0 ->
  listed id t = r :: rows ->
  group_by col_id (listed id t) = [(fst r, map snd (r :: rows))].
Proof.
  intros Hid E. rewrite E. apply group_by_same_key.
  intros r' Hr'. apply (listed_same_id t id); [assumption| |]; rewrite E.
  - now left.
  - now right.
Qed.

Lemma listed_in (t : Tables) (id : Z) (r : Row) :
  id <> 0 ->
  In r (listed id t) <-> In r (joined t) /\ a_id (fst r) = id.
Proof.
  unfold listed. intro Hid. apply Z.eqb_neq in Hid. rewrite Hid.
  rewrite filter_In, Z.eqb_eq. reflexivity.
Qed.

Lemma listed_nonempty (t : Tables) (id : Z) :
  id <> 0 ->
  with_id id (activists t) <> [] ->
  exists (r : Row) (rows : list Row),
    listed id t = r :: rows /\ In (fst r) (activists t) /\ a_id (fst r) = id.
Proof.
  intros Hid Hsome.
  destruct (listed id t) as [|r rows] eqn:E.
  - exfalso. apply Hsome. apply filter_nil. intros a Ha.
    destruct (a_id a =? id) eqn:Ea; [|reflexivity].
    apply Z.eqb_eq in Ea. apply joined_reps in Ha.
    apply in_map_iff in Ha. destruct Ha as (r & Hr & Hin).
    assert (Hl : In r (listed id t)) by (apply listed_in; subst; auto).
    rewrite E in Hl. destruct Hl.
  - exists r, rows. split; [reflexivity|].
    assert (Hl : In r (listed id t)) by (rewrite E; now left).
    apply listed_in in Hl; [|assumption]. destruct Hl as [Hj Hi].
    split; [now apply joined_fst|assumption].
Qed.

Lemma with_id_updated (user : UserExtra) (l : list Activist) (id : Z) :
  with_id id l <> [] -> with_id id (map (update_activist user) l) <> [].
Proof.
  intros H E. apply H. apply filter_nil. intros a Ha.
  rewrite <- (update_activist_id user a).
  apply (proj1 (filter_nil _ _) E). now apply in_map.
Qed.

(** X5: writing a record and reading it back.  For a record whose id
    is not 0 and is the id of some row, when both statements reach the
    store, [UpdateActivistData] followed by [GetUsersExtra] on that id
    returns exactly one record; it carries the written value of every
    field the UPDATE sets.  The location comes back as written when it
    was valid, and as not valid otherwise (its string is then dropped). *)
Theorem UpdateActivistData_read_back :
  forall (db : DB) (user : UserExtra),
    ID (UserExtra_User user) <> 0 ->
    hd false (faults db) = false ->
    hd false (tl (faults db)) = false ->
    with_id (ID (UserExtra_User user)) (activists (committed db)) <> [] ->
    exists (db1 : DB) (u : UserExtra) (db2 : DB),
      UpdateActivistData user db = Returns (ID (UserExtra_User user), None) db1 /\
      GetUsersExtra (ID (UserExtra_User user)) db1 = Returns ([u], None) db2 /\
      ID (UserExtra_User u) = ID (UserExtra_User user) /\
      Name (UserExtra_User u) = Name (UserExtra_User user) /\
      Email (UserExtra_User u) = Email (UserExtra_User user) /\
      Chapter (UserExtra_User u) = Chapter (UserExtra_User user) /\
      Phone (UserExtra_User u) = Phone (UserExtra_User user) /\
      Facebook (UserExtra_User u) = Facebook (UserExtra_User user) /\
      LiberationPledge (UserExtra_User u) = LiberationPledge (UserExtra_User user) /\
      Valid (Location (UserExtra_User u)) = Valid (Location (UserExtra_User user)) /\
      (Valid (Location (UserExtra_User user)) = true ->
       String_ (Location (UserExtra_User u))
       = String_ (Location (UserExtra_User user))) /\
      UserExtra_UserMembershipData u = UserExtra_UserMembershipData user.
Proof.
  intros db user Hid Hf Hf2 Hsome.
  rewrite UpdateActivistData_eq, Hf.
  eexists. 
  match goal with
  | |- exists u db2, Returns _ ?d = _ /\ _ => set (db1 := d)
  end.
  assert (Hf1 : hd false (faults db1) = false) by exact Hf2.
  rewrite (GetUsersExtra_ok _ _ Hf1).
  set (t1 := committed db1).
  assert (Hsome1 : with_id (ID (UserExtra_User user)) (activists t1) <> [])
    by (apply with_id_updated; exact Hsome).
  destruct (listed_nonempty t1 _ Hid Hsome1) as (r & rows & E & Hin & Hr).
  rewrite (listed_one_group _ _ _ _ Hid E). cbn [map].
  do 2 eexists. split; [reflexivity|]. split; [reflexivity|].
  change (activists t1)
    with (map (update_activist user) (activists (committed db))) in Hin.
  apply in_map_iff in Hin. destruct Hin as (a1 & Ha1 & _).
  rewrite <- Ha1, update_activist_id in Hr.
  unfold update_activist in Ha1. apply Z.eqb_eq in Hr. rewrite Hr in Ha1.
  cbn [with_status set_Status scan_UserExtra UserExtra_User
       UserExtra_UserMembershipData fst]. rewrite <- Ha1.
  cbn [scan_User_columns ID Name Email Chapter Phone Facebook LiberationPledge
       Location a_id a_name a_email a_chapter a_phone a_facebook a_location
       a_liberation_pledge a_core_staff a_exclude_from_leaderboard
       a_global_team_member a_activist_level].
  apply Z.eqb_eq in Hr.
  repeat (split; [reflexivity || assumption|]).
  destruct user as [[i n e c p [s v] f lp] ed [cs el gt al]].
  cbn. destruct v; repeat split. discriminate.
Qed.

(** ** Aggregates *)

Lemma fold_min_spec (l : list Z) (x : Z) :
  fold_left Z.min l x <= x /\
  Forall (fun y => fold_left Z.min l x <= y) l /\
  In (fold_left Z.min l x) (x :: l).
Proof.
  revert x. induction l as [|y l IH]; intro x; cbn [fold_left].
  - split; [lia|]. split; [constructor|now left].
  - destruct (IH (Z.min x y)) as (H1 & H2 & H3). split; [lia|]. split.
    + constructor; [lia|exact H2].
    + destruct H3 as [H3|H3]; [|now right; right].
      rewrite <- H3. destruct (Z.min_spec x y) as [[_ ->]|[_ ->]];
        [now left|now right; left].
Qed.

Lemma fold_max_spec (l : list Z) (x : Z) :
  x <= fold_left Z.max l x /\
  Forall (fun y => y <= fold_left Z.max l x) l /\
  In (fold_left Z.max l x) (x :: l).
Proof.
  revert x. induction l as [|y l IH]; intro x; cbn [fold_left].
  - split; [lia|]. split; [constructor|now left].
  - destruct (IH (Z.max x y)) as (H1 & H2 & H3). split; [lia|]. split.
    + constructor; [lia|exact H2].
    + destruct H3 as [H3|H3]; [|now right; right].
      rewrite <- H3. destruct (Z.max_spec x y) as [[_ ->]|[_ ->]];
        [now right; left|now left].
Qed.

Lemma sql_MIN_spec (l : list Time) :
  match sql_MIN l with
  | None => l = []
  | Some m => In m l /\ Forall (fun y => m <= y) l
  end.
Proof.
  destruct l as [|x l]; cbn [sql_MIN]; [reflexivity|].
  destruct (fold_min_spec l x) as (H1 & H2 & H3).
  split; [exact H3|]. now constructor.
Qed.

Lemma sql_MAX_spec (l : list Time) :
  match sql_MAX l with
  | None => l = []
  | Some m => In m l /\ Forall (fun y => y <= m) l
  end.
Proof.
  destruct l as [|x l]; cbn [sql_MAX]; [reflexivity|].
  destruct (fold_max_spec l x) as (H1 & H2 & H3).
  split; [exact H3|]. now constructor.
Qed.

Lemma sql_MIN_perm (l l' : list Time) :
  Permutation l l' -> sql_MIN l = sql_MIN l'.
Proof.
  intro Hp. pose proof (sql_MIN_spec l) as H. pose proof (sql_MIN_spec l') as H'.
  destruct (sql_MIN l) as [m|], (sql_MIN l') as [m'|].
  - destruct H as [Hin Hle], H' as [Hin' Hle'].
    apply (Permutation_in _ Hp) in Hin.
    apply (Permutation_in _ (Permutation_sym Hp)) in Hin'.
    apply (proj1 (Forall_forall _ _) Hle) in Hin'.
    apply (proj1 (Forall_forall _ _) Hle') in Hin.
    f_equal. lia.
  - subst l'. apply Permutation_sym, Permutation_nil in Hp. subst l.
    destruct H as [[] _].
  - subst l. apply Permutation_nil in Hp. subst l'. destruct H' as [[] _].
  - reflexivity.
Qed.

Lemma sql_MAX_perm (l l' : list Time) :
  Permutation l l' -> sql_MAX l = sql_MAX l'.
Proof.
  intro Hp. pose proof (sql_MAX_spec l) as H. pose proof (sql_MAX_spec l') as H'.
  destruct (sql_MAX l) as [m|], (sql_MAX l') as [m'|].
  - destruct H as [Hin Hle], H' as [Hin' Hle'].
    apply (Permutation_in _ Hp) in Hin.
    apply (Permutation_in _ (Permutation_sym Hp)) in Hin'.
    apply (proj1 (Forall_forall _ _) Hle) in Hin'.
    apply (proj1 (Forall_forall _ _) Hle') in Hin.
    f_equal. lia.
  - subst l'. apply Permutation_sym, Permutation_nil in Hp. subst l.
    destruct H as [[] _].
  - subst l. apply Permutation_nil in Hp. subst l'. destruct H' as [[] _].
  - reflexivity.
Qed.

Lemma sql_COUNT_dates (es : list (option Event)) :
  sql_COUNT es = len (dates es).
Proof.
  unfold sql_COUNT, len, dates. f_equal.
  induction es as [|[e|] es IH]; cbn [filter flat_map app List.length]; congruence.
Qed.

(** ** Nested loops over two tables *)

Lemma flat_map_nil_all {A B : Type} (l : list A) :
  flat_map (fun _ : A => @nil B) l = [].
Proof. induction l as [|x l IH]; cbn; [reflexivity|exact IH]. Qed.

Lemma flat_map_app_perm {A B : Type} (f g : A -> list B) (l : list A) :
  Permutation (flat_map (fun x => f x ++ g x) l) (flat_map f l ++ flat_map g l).
Proof.
  induction l as [|x l IH]; cbn [flat_map]; [reflexivity|].
  rewrite IH, <- !app_assoc. apply Permutation_app_head.
  rewrite !app_assoc. apply Permutation_app_tail, Permutation_app_comm.
Qed.

Lemma flat_map_swap {A B C : Type} (f : A -> B -> list C)
      (la : list A) (lb : list B) :
  Permutation (flat_map (fun a => flat_map (fun b => f a b) lb) la)
              (flat_map (fun b => flat_map (fun a => f a b) la) lb).
Proof.
  induction la as [|a la IH]; cbn [flat_map].
  - now rewrite flat_map_nil_all.
  - rewrite IH. symmetry.
    apply (flat_map_app_perm (fun b => f a b) (fun b => flat_map (fun a0 => f a0 b) la)).
Qed.

Lemma flat_map_of_filter {A B : Type} (f : A -> list B) (p : A -> bool) (l : list A) :
  flat_map f (filter p l) = flat_map (fun x => if p x then f x else []) l.
Proof.
  induction l as [|x l IH]; cbn [filter flat_map]; [reflexivity|].
  destruct (p x); cbn [flat_map app]; now rewrite IH.
Qed.

Lemma map_of_filter {A B : Type} (g : A -> B) (p : A -> bool) (l : list A) :
  map g (filter p l) = flat_map (fun x => if p x then [g x] else []) l.
Proof.
  induction l as [|x l IH]; cbn [filter flat_map map]; [reflexivity|].
  destruct (p x); cbn [map app]; now rewrite IH.
Qed.

Lemma filter_of_flat_map {A B : Type} (f : A -> list B) (p : B -> bool) (l : list A) :
  filter p (flat_map f l) = flat_map (fun x => filter p (f x)) l.
Proof.
  induction l as [|x l IH]; cbn [flat_map]; [reflexivity|].
  now rewrite filter_app, IH.
Qed.

Lemma map_of_flat_map {A B C : Type} (f : A -> list B) (g : B -> C) (l : list A) :
  map g (flat_map f l) = flat_map (fun x => map g (f x)) l.
Proof.
  induction l as [|x l IH]; cbn [flat_map map]; [reflexivity|].
  now rewrite map_app, IH.
Qed.

Lemma dates_of_flat_map {A : Type} (f : A -> list (option Event)) (l : list A) :
  dates (flat_map f l) = flat_map (fun x => dates (f x)) l.
Proof.
  induction l as [|x l IH]; cbn [flat_map]; [reflexivity|].
  unfold dates at 1. rewrite flat_map_app. fold (dates (f x)).
  fold (dates (flat_map f l)). now rewrite IH.
Qed.

(** ** The listing and the event aggregate agree *)

Lemma joined_eq (t : Tables) : joined t = flat_map (joined_rows t) (activists t).
Proof. reflexivity. Qed.

Lemma joined_rows_fst (t : Tables) (a : Activist) (r : Row) :
  In r (joined_rows t a) -> fst r = a.
Proof.
  unfold joined_rows.
  destruct (filter _ (event_attendance t)) as [|ea eas].
  - intros [<-|[]]. reflexivity.
  - intro Hr. apply in_flat_map in Hr. destruct Hr as (ea' & _ & Hr).
    destruct (filter _ (events t)) as [|e es].
    + destruct Hr as [<-|[]]. reflexivity.
    + apply in_map_iff in Hr. destruct Hr as (e' & <- & _). reflexivity.
Qed.

Lemma joined_rows_head (t : Tables) (a : Activist) :
  exists (e : option Event) (rows : list Row), joined_rows t a = (a, e) :: rows.
Proof.
  unfold joined_rows.
  destruct (filter _ (event_attendance t)) as [|ea eas].
  - now exists None, [].
  - cbn [flat_map]. destruct (filter _ (events t)) as [|e es].
    + eexists None, _. cbn [app]. reflexivity.
    + eexists (Some e), _. cbn [map app]. reflexivity.
Qed.

Lemma filter_all {A : Type} (p : A -> bool) (l : list A) :
  (forall x, In x l -> p x = true) -> filter p l = l.
Proof.
  induction l as [|x l IH]; intro H; cbn [filter]; [reflexivity|].
  rewrite (H x (or_introl eq_refl)), IH; [reflexivity|].
  intros y Hy. apply H. now right.
Qed.

Lemma listed_flat (t : Tables) (id : Z) :
  id <> 0 ->
  listed id t = flat_map (joined_rows t) (with_id id (activists t)).
Proof.
  intro Hid. unfold listed, with_id. apply Z.eqb_neq in Hid. rewrite Hid.
  rewrite joined_eq, filter_of_flat_map, flat_map_of_filter.
  apply flat_map_ext. intro a.
  destruct (a_id a =? id) eqn:E.
  - apply filter_all. intros r Hr. now rewrite (joined_rows_fst _ _ _ Hr).
  - apply filter_nil. intros r Hr. now rewrite (joined_rows_fst _ _ _ Hr).
Qed.

Lemma dates_of_events (a : Activist) (es : list Event) :
  dates (map snd (map (fun e => (a, Some e)) es)) = map e_date es.
Proof.
  induction es as [|e es IH]; [reflexivity|].
  cbn [map snd]. unfold dates in *. cbn [flat_map app]. now rewrite IH.
Qed.

Lemma attended_date_flat (id : Z) (ea : EventAttendance) (es : list Event) :
  flat_map (fun e => attended_date id ea e) es
  = if ea_activist_id ea =? id
    then map e_date (filter (fun e => e_id e =? ea_event_id ea) es)
    else [].
Proof.
  unfold attended_date. destruct (ea_activist_id ea =? id); cbn [andb].
  - now rewrite map_of_filter.
  - apply flat_map_nil_all.
Qed.

Lemma dates_joined_rows (t : Tables) (a : Activist) :
  dates (map snd (joined_rows t a))
  = flat_map (fun ea => flat_map (fun e => attended_date (a_id a) ea e) (events t))
             (event_attendance t).
Proof.
  rewrite (flat_map_ext _ _ (fun ea => attended_date_flat (a_id a) ea (events t))).
  rewrite <- (flat_map_of_filter
                (fun ea => map e_date
                               (filter (fun e => e_id e =? ea_event_id ea) (events t)))
                (fun ea => ea_activist_id ea =? a_id a)).
  unfold joined_rows.
  destruct (filter (fun ea => ea_activist_id ea =? a_id a) (event_attendance t))
    as [|ea eas]; [reflexivity|].
  rewrite map_of_flat_map, dates_of_flat_map.
  apply flat_map_ext. intro ea'.
  destruct (filter (fun e => e_id e =? ea_event_id ea') (events t)) as [|e es];
    [reflexivity|].
  apply dates_of_events.
Qed.

Lemma attended_dates (t : Tables) (id : Z) :
  map (fun r => e_date (fst r)) (attended id t)
  = flat_map (fun e => flat_map (fun ea => attended_date id ea e) (event_attendance t))
             (events t).
Proof.
  unfold attended, events_joined.
  rewrite filter_of_flat_map, map_of_flat_map.
  apply flat_map_ext. intro e.
  induction (event_attendance t) as [|ea eas IH]; [reflexivity|].
  cbn [filter flat_map]. unfold attended_date at 1.
  rewrite (Z.eqb_sym (e_id e) (ea_event_id ea)).
  destruct (ea_event_id ea =? e_id e); cbn [map filter snd].
  - destruct (ea_activist_id ea =? id); cbn [andb map fst app]; now rewrite IH.
  - rewrite andb_false_r. cbn [app]. exact IH.
Qed.

Lemma dates_agree (t : Tables) (a : Activist) :
  Permutation (dates (map snd (joined_rows t a)))
              (map (fun r => e_date (fst r)) (attended (a_id a) t)).
Proof. rewrite dates_joined_rows, attended_dates. apply flat_map_swap. Qed.

Lemma GetUserEventData_ok (db : DB) (u : User) :
  hd false (faults db) = false ->
  GetUserEventData u db
  = Returns (event_aggregate (ID u) (committed db), None)
            (after_call (OpGet userEventDataQuery [ArgInt (ID u)]) db).
Proof.
  intro Hf. unfold GetUserEventData, db_Get_UserEventData, bind.
  rewrite store_call_eq, Hf, String.eqb_refl. reflexivity.
Qed.

(** X6: the aggregates of the joined listing are those of the separate
    event query.  For a non-zero id that exactly one row has, when both
    queries reach the store, [GetUsersExtra] returns one record, and
    [GetUserEventData] called on its user returns the same first event,
    last event and number of events. *)
Theorem GetUserEventData_agrees_with_GetUsersExtra :
  forall (db : DB) (a : Activist),
    a_id a <> 0 ->
    hd false (faults db) = false ->
    with_id (a_id a) (activists (committed db)) = [a] ->
    exists (u : UserExtra) (db1 : DB) (d : UserEventData) (db2 : DB),
      GetUsersExtra (a_id a) db = Returns ([u], None) db1 /\
      GetUserEventData (UserExtra_User u) db = Returns (d, None) db2 /\
      FirstEvent d = FirstEvent (UserExtra_UserEventData u) /\
      LastEvent d = LastEvent (UserExtra_UserEventData u) /\
      TotalEvents d = TotalEvents (UserExtra_UserEventData u).
Proof.
  intros db a Hid Hf Hone.
  rewrite (GetUsersExtra_ok _ _ Hf), (listed_flat _ _ Hid), Hone.
  cbn [flat_map]. rewrite app_nil_r.
  destruct (joined_rows_head (committed db) a) as (e & rows & E).
  assert (Hg : group_by col_id (joined_rows (committed db) a)
               = [(a, map snd (joined_rows (committed db) a))]).
  { rewrite E. apply (group_by_same_key col_id (a, e) rows).
    intros r' Hr'. cbn [fst same_key].
    rewrite (joined_rows_fst (committed db) a r') by (rewrite E; now right).
    apply Z.eqb_refl. }
  rewrite Hg. cbn [map].
  do 4 eexists. split; [reflexivity|].
  rewrite (GetUserEventData_ok _ _ Hf).
  split; [reflexivity|].
  cbn [with_status set_Status scan_UserExtra UserExtra_User UserExtra_UserEventData
       scan_User_columns ID fst snd FirstEvent LastEvent TotalEvents event_aggregate].
  pose proof (dates_agree (committed db) a) as Hp.
  split; [|split].
  - symmetry. now apply sql_MIN_perm.
  - symmetry. now apply sql_MAX_perm.
  - rewrite sql_COUNT_dates. unfold len. f_equal.
    rewrite (Permutation_length Hp). now rewrite length_map.
Qed.

(** ** What the aggregates owe each other *)

Lemma aggregates_consistent (l : list Time) :
  consistent_aggregates
    {| FirstEvent := sql_MIN l; LastEvent := sql_MAX l;
       TotalEvents := len l; Status := "" |}.
Proof.
  unfold consistent_aggregates. cbn [FirstEvent LastEvent TotalEvents].
  pose proof (sql_MIN_spec l) as Hmin. pose proof (sql_MAX_spec l) as Hmax.
  unfold len. split; [lia|].
  destruct l as [|x l].
  - cbn. repeat split; try reflexivity; intros; discriminate.
  - cbn [sql_MIN sql_MAX] in *. cbn [List.length].
    split; [split; [lia|discriminate]|].
    split; [split; discriminate|].
    intros f g Hf Hg. injection Hf as <-. injection Hg as <-.
    destruct Hmin as [_ Hmin], Hmax as [Hin _].
    exact (proj1 (Forall_forall _ _) Hmin _ Hin).
Qed.




(** ** The records of the listing by id *)

Lemma GetUsersExtra_fault (db : DB) (userID : Z) :
  hd false (faults db) = true ->
  GetUsersExtra userID db
  = Returns ([], Some (errors_Wrapf driver_ErrBadConn
                         "failed to get users extra for uid %d" [ArgInt userID]))
            (after_call (OpSelect (GetUsersExtra_query userID)
                                  (GetUsersExtra_args userID)) db).
Proof.
  intro Hf. unfold GetUsersExtra, GetUsersExtra_query, GetUsersExtra_args.
  destruct (userID =? 0); cbn [negb];
    unfold db_Select, bind; rewrite store_call_eq, Hf; reflexivity.
Qed.

Lemma group_fold_nodup_id (rows : list Row) (acc : list Group) :
  NoDup (map a_id (map fst acc)) ->
  NoDup (map a_id
             (map fst (fold_left (fun gs r => add_row col_id r gs) rows acc))).
Proof.
  revert acc. induction rows as [|r rows IH]; intros acc H; cbn [fold_left].
  - exact H.
  - apply IH. rewrite add_row_reps.
    destruct (existsb (fun g => same_key col_id (fst g) (fst r)) acc) eqn:E.
    + now rewrite app_nil_r.
    + rewrite map_app. cbn [map].
      apply NoDup_app; [assumption|repeat constructor; intros []|].
      intros n Hn [<-|[]].
      apply in_map_iff in Hn. destruct Hn as (a & Ha & Hin).
      apply in_map_iff in Hin. destruct Hin as (g & <- & Hg).
      assert (Hex : existsb (fun g => same_key col_id (fst g) (fst r)) acc = true).
      { apply existsb_exists. exists g. split; [assumption|].
        cbn [same_key]. now apply Z.eqb_eq. }
      congruence.
Qed.

Lemma scanned_aggregates (g : Group) :
  consistent_aggregates
    (UserExtra_UserEventData (with_status (scan_UserExtra true g))) /\
  Status (UserExtra_UserEventData (with_status (scan_UserExtra true g)))
  = getStatus
      (FirstEvent (UserExtra_UserEventData (with_status (scan_UserExtra true g))))
      (LastEvent (UserExtra_UserEventData (with_status (scan_UserExtra true g))))
      (TotalEvents (UserExtra_UserEventData (with_status (scan_UserExtra true g)))).
Proof.
  split; [|reflexivity].
  pose proof (aggregates_consistent (dates (snd g))) as H.
  rewrite <- sql_COUNT_dates in H. exact H.
Qed.

(** X8: [GetUsersExtra] always returns and only reads; when the query
    does not reach the store it returns no record.  The records it
    returns have pairwise different ids (one record per activist id,
    however many events are joined to it); for a non-zero [userID] they
    all have that id; and in each the aggregates are consistent and the
    status is [getStatus] of these very aggregates. *)
Theorem GetUsersExtra_records :
  forall (db : DB) (userID : Z),
    exists (users : list UserExtra) (err : error) (db' : DB),
      GetUsersExtra userID db = Returns (users, err) db' /\
      committed db' = committed db /\
      (err <> None -> users = []) /\
      NoDup (map (fun u => ID (UserExtra_User u)) users) /\
      (userID <> 0 -> Forall (fun u => ID (UserExtra_User u) = userID) users) /\
      Forall (fun u =>
                consistent_aggregates (UserExtra_UserEventData u) /\
                Status (UserExtra_UserEventData u)
                = getStatus (FirstEvent (UserExtra_UserEventData u))
                            (LastEvent (UserExtra_UserEventData u))
                            (TotalEvents (UserExtra_UserEventData u)))
             users.
Proof.
  intros db userID. destruct (hd false (faults db)) eqn:Hf.
  - rewrite (GetUsersExtra_fault _ _ Hf). do 3 eexists.
    split; [reflexivity|]. split; [reflexivity|].
    repeat split; constructor.
  - rewrite (GetUsersExtra_ok _ _ Hf). do 3 eexists.
    split; [reflexivity|]. split; [reflexivity|].
    split; [intro H; now contradiction H|].
    split; [|split].
    + rewrite !map_map. cbn [with_status set_Status scan_UserExtra UserExtra_User
                              scan_User_columns ID].
      rewrite <- (map_map fst a_id). apply group_fold_nodup_id. constructor.
    + intro Hid. apply Forall_forall. intros u Hu.
      rewrite map_map in Hu. apply in_map_iff in Hu. destruct Hu as (g & <- & Hg).
      cbn [with_status set_Status scan_UserExtra UserExtra_User scan_User_columns ID].
      apply (in_map fst) in Hg. unfold group_by in Hg.
      apply group_fold_reps_in in Hg. destruct Hg as [[]|Hg].
      apply in_map_iff in Hg. destruct Hg as (r & <- & Hr).
      now apply (listed_in _ _ _ Hid) in Hr.
    + apply Forall_forall. intros u Hu.
      rewrite map_map in Hu. apply in_map_iff in Hu. destruct Hu as (g & <- & _).
      apply scanned_aggregates.
Qed.

(** ** One record per activist *)

Lemma add_row_new (c : Column) (r : Row) (gs : list Group) :
  (forall g, In g gs -> same_key c (fst g) (fst r) = false) ->
  add_row c r gs = gs ++ [(fst r, [snd r])].
Proof.
  induction gs as [|g gs IH]; intro H; cbn [add_row app]; [reflexivity|].
  rewrite (H g (or_introl eq_refl)), IH; [reflexivity|].
  intros g' Hg'. apply H. now right.
Qed.

Lemma add_row_last (c : Column) (r : Row) (gs : list Group) (a : Activist)
      (es : list (option Event)) :
  (forall g, In g gs -> same_key c (fst g) (fst r) = false) ->
  same_key c a (fst r) = true ->
  add_row c r (gs ++ [(a, es)]) = gs ++ [(a, es ++ [snd r])].
Proof.
  induction gs as [|g gs IH]; intros H Ha; cbn [add_row app fst snd].
  - now rewrite Ha.
  - rewrite (H g (or_introl eq_refl)), IH; [reflexivity| |assumption].
    intros g' Hg'. apply H. now right.
Qed.

Lemma add_rows_last (rows : list Row) (gs : list Group) (a : Activist)
      (es : list (option Event)) :
  (forall g, In g gs -> a_id (fst g) <> a_id a) ->
  (forall r, In r rows -> fst r = a) ->
  fold_left (fun gs r => add_row col_id r gs) rows (gs ++ [(a, es)])
  = gs ++ [(a, es ++ map snd rows)].
Proof.
  revert es. induction rows as [|r rows IH]; intros es Hgs Hrows; cbn [fold_left map].
  - now rewrite app_nil_r.
  - assert (Hr : fst r = a) by (apply Hrows; now left).
    rewrite add_row_last.
    + rewrite IH; [now rewrite <- app_assoc|assumption|].
      intros r' Hr'. apply Hrows. now right.
    + intros g Hg. rewrite Hr. cbn [same_key]. apply Z.eqb_neq. now apply Hgs.
    + rewrite Hr. cbn [same_key]. apply Z.eqb_refl.
Qed.

Lemma add_joined_rows (t : Tables) (a : Activist) (gs : list Group) :
  (forall g, In g gs -> a_id (fst g) <> a_id a) ->
  exists es : list (option Event),
    fold_left (fun gs r => add_row col_id r gs) (joined_rows t a) gs
    = gs ++ [(a, es)].
Proof.
  intro Hgs. destruct (joined_rows_head t a) as (e & rows & E).
  assert (Hrows : forall r, In r rows -> fst r = a).
  { intros r Hr. apply (joined_rows_fst t a). rewrite E. now right. }
  rewrite E. cbn [fold_left]. rewrite add_row_new.
  - cbn [fst snd]. rewrite (add_rows_last rows gs a [e] Hgs Hrows). eauto.
  - intros g Hg. cbn [same_key fst]. apply Z.eqb_neq. now apply Hgs.
Qed.

Lemma group_by_id_reps (t : Tables) (l : list Activist) (gs : list Group) :
  NoDup (map a_id (map fst gs) ++ map a_id l) ->
  map fst (fold_left (fun gs r => add_row col_id r gs)
                     (flat_map (joined_rows t) l) gs)
  = map fst gs ++ l.
Proof.
  revert gs. induction l as [|a l IH]; intros gs Hnd; cbn [flat_map fold_left].
  - now rewrite app_nil_r.
  - rewrite fold_left_app.
    assert (Hgs : forall g, In g gs -> a_id (fst g) <> a_id a).
    { intros g Hg E. cbn [map] in Hnd. apply NoDup_remove_2 in Hnd.
      apply Hnd. apply in_or_app. left. rewrite <- E. now apply in_map, in_map. }
    destruct (add_joined_rows t a gs Hgs) as (es & ->).
    rewrite IH.
    + rewrite map_app. cbn [map fst]. now rewrite <- app_assoc.
    + rewrite !map_app. cbn [map fst]. now rewrite <- app_assoc.
Qed.

Lemma group_by_id_joined (t : Tables) :
  NoDup (map a_id (activists t)) ->
  map fst (group_by col_id (joined t)) = activists t.
Proof.
  intro H. unfold group_by. rewrite joined_eq.
  now rewrite (group_by_id_reps t (activists t) []).
Qed.

(** X9: when the ids of the table are pairwise different and the query
    reaches the store, [GetUsersJSON] returns exactly one record per row
    of the table, in the order of the table, each with the id and the
    name of its row: joining the events neither multiplies nor drops
    activists. *)
Theorem GetUsersJSON_one_record_per_row :
  forall db : DB,
    hd false (faults db) = false ->
    NoDup (map a_id (activists (committed db))) ->
    exists (users : list UserJSON) (db' : DB),
      GetUsersJSON db = Returns (users, None) db' /\
      map UserJSON.ID users = map a_id (activists (committed db)) /\
      map UserJSON.Name users = map a_name (activists (committed db)) /\
      List.length users = List.length (activists (committed db)).
Proof.
  intros db Hf Hnd. unfold GetUsersJSON. rewrite (getUsersJSON_ok _ _ Hf).
  change (listed 0 (committed db)) with (joined (committed db)).
  do 2 eexists. split; [reflexivity|].
  pose proof (group_by_id_joined _ Hnd) as Hg.
  rewrite !map_map, !length_map.
  cbn [buildUserJSON with_status set_Status scan_UserExtra UserExtra_User
       scan_User_columns ID Name UserJSON.ID UserJSON.Name].
  rewrite <- (map_map fst a_id), <- (map_map fst a_name), Hg.
  repeat split. rewrite <- Hg. now rewrite length_map.
Qed.

(** X10: a lookup that hits.  For a non-zero id, when the query reaches
    the store and [a] is the first row of the table with that id,
    [GetUserJSON] returns the record of [a]: its id, name, email,
    chapter, phone and facebook handle, its location (empty when NULL),
    its level and its four flags. *)
Theorem GetUserJSON_existing_id :
  forall (db : DB) (userID : Z) (a : Activist) (others : list Activist),
    userID <> 0 ->
    hd false (faults db) = false ->
    with_id userID (activists (committed db)) = a :: others ->
    exists (j : UserJSON) (db' : DB),
      GetUserJSON userID db = Returns (j, None) db' /\
      UserJSON.ID j = userID /\
      UserJSON.Name j = a_name a /\
      UserJSON.Email j = a_email a /\
      UserJSON.Chapter j = a_chapter a /\
      UserJSON.Phone j = a_phone a /\
      UserJSON.Facebook j = a_facebook a /\
      UserJSON.Location j = match a_location a with Some s => s | None => "" end /\
      UserJSON.ActivistLevel j = a_activist_level a /\
      UserJSON.Core j = a_core_staff a /\
      UserJSON.ExcludeFromLeaderboard j = a_exclude_from_leaderboard a /\
      UserJSON.LiberationPledge j = a_liberation_pledge a /\
      UserJSON.GlobalTeamMember j = a_global_team_member a.
Proof.
  intros db userID a others Hid Hf Ha.
  unfold GetUserJSON, bind. rewrite (getUsersJSON_ok _ _ Hf).
  rewrite (listed_flat _ _ Hid), Ha. cbn [flat_map].
  destruct (joined_rows_head (committed db) a) as (e & rows & ->).
  cbn [app].
  destruct (group_by_head col_id (a, e)
              (rows ++ flat_map (joined_rows (committed db)) others))
    as (es & gs & ->).
  cbn [map fst]. do 2 eexists. split; [reflexivity|].
  assert (Hida : a_id a = userID).
  { assert (Hin : In a (with_id userID (activists (committed db))))
      by (rewrite Ha; now left).
    apply filter_In in Hin. now apply Z.eqb_eq. }
  split; [exact Hida|].
  cbn. destruct (a_location a); repeat split.
Qed.

(** ** When the lookup by id panics *)

Lemma getUsersJSON_fault (db : DB) (userID : Z) :
  hd false (faults db) = true ->
  getUsersJSON userID db
  = Returns ([], Some (errors_Wrapf driver_ErrBadConn
                         "failed to get users extra for uid %d" [ArgInt userID]))
            (after_call (OpSelect (GetUsersExtra_query userID)
                                  (GetUsersExtra_args userID)) db).
Proof.
  intro Hf. unfold getUsersJSON, bind. now rewrite (GetUsersExtra_fault _ _ Hf).
Qed.

Lemma listed_nil_iff (t : Tables) (userID : Z) :
  listed userID t = []
  <-> (if userID =? 0 then activists t else with_id userID (activists t)) = [].
Proof.
  destruct (Z.eqb_spec userID 0) as [->|Hid].
  - change (listed 0 t) with (joined t). split; intro H.
    + destruct (activists t) as [|a l] eqn:E; [reflexivity|].
      destruct (joined_head _ _ _ E) as (e & rows & Hj). congruence.
    + rewrite joined_eq, H. reflexivity.
  - split; intro H.
    + destruct (with_id userID (activists t)) as [|a l] eqn:E; [reflexivity|].
      assert (Hne : with_id userID (activists t) <> []) by (rewrite E; discriminate).
      destruct (listed_nonempty _ _ Hid Hne) as (r & rows & Hl & _). congruence.
    + now apply listed_unknown.
Qed.

(** X11: [GetUserJSON] panics in exactly one situation: the query
    reached the store and listed no row, that is, no row has the id asked
    for or, for id 0, the table is empty.  In particular a store failure
    is returned as an error and never makes it panic. *)
Theorem GetUserJSON_panics_iff :
  forall (db : DB) (userID : Z),
    (exists (msg : string) (db' : DB), GetUserJSON userID db = Panics msg db')
    <-> hd false (faults db) = false /\
        (if userID =? 0 then activists (committed db)
         else with_id userID (activists (committed db))) = [].
Proof.
  intros db userID. rewrite <- listed_nil_iff.
  unfold GetUserJSON, bind. destruct (hd false (faults db)) eqn:Hf.
  - rewrite (getUsersJSON_fault _ _ Hf). split.
    + intros (msg & db' & H). discriminate H.
    + intros [H _]. discriminate H.
  - rewrite (getUsersJSON_ok _ _ Hf).
    destruct (listed userID (committed db)) as [|r rows] eqn:E.
    + split; [now split|]. intros _. cbn. eauto.
    + destruct (group_by_head col_id r rows) as (es & gs & ->). cbn [map]. split.
      * intros (msg & db' & H). discriminate H.
      * intros [_ H]. discriminate H.
Qed.

(** ** The records of the range listing *)

Lemma range_groups_names_nodup (o : UserOptionsJSON) (t : Tables) :
  NoDup (map group_name (range_groups o t)).
Proof.
  unfold range_groups.
  set (gs := sort_by _ _).
  assert (Hgs : NoDup (map group_name gs)).
  { apply (Permutation_NoDup
             (l := map group_name (group_by col_name (range_filter o (joined t))))).
    - apply Permutation_map. symmetry. apply sort_by_perm.
    - rewrite names_map_fst. apply group_by_name_nodup. }
  unfold range_page. destruct (opt_Limit o >? 0); [|exact Hgs].
  rewrite <- (firstn_skipn (Z.to_nat (opt_Limit o)) gs), map_app in Hgs.
  exact (NoDup_app_remove_r _ _ Hgs).
Qed.

Lemma range_groups_at_most (o : UserOptionsJSON) (t : Tables) :
  0 < opt_Limit o -> len (range_groups o t) <= opt_Limit o.
Proof.
  intro Hl. unfold range_groups, range_page, len.
  replace (opt_Limit o >? 0) with true by (symmetry; apply Z.gtb_lt; lia).
  rewrite length_firstn. lia.
Qed.

(** X12: [GetUserRangeJSON] always returns and only reads; with an
    error it returns no record.  The records it returns have pairwise
    different names (one record per name), there are at most [limit] of
    them when the limit is positive, and every one has an empty status:
    unlike the listing by id, the range listing never calls [getStatus]. *)
Theorem GetUserRangeJSON_records :
  forall (db : DB) (o : UserOptionsJSON),
    exists (users : list UserJSON) (err : error) (db' : DB),
      GetUserRangeJSON o db = Returns (users, err) db' /\
      committed db' = committed db /\
      (err <> None -> users = []) /\
      NoDup (map UserJSON.Name users) /\
      (0 < opt_Limit o -> len users <= opt_Limit o) /\
      Forall (fun j => UserJSON.Status j = "") users.
Proof.
  intros db o. unfold GetUserRangeJSON.
  destruct (negb (opt_Order o =? descOrder) && negb (opt_Order o =? ascOrder)).
  - do 3 eexists. split; [reflexivity|]. split; [reflexivity|].
    split; [reflexivity|]. split; [constructor|].
    split; [intro; cbn; lia|constructor].
  - unfold bind. destruct (hd false (faults db)) eqn:Hf.
    + destruct (getUserRange_fault db o Hf) as (q & args & ->).
      do 3 eexists. split; [reflexivity|]. split; [reflexivity|].
      split; [reflexivity|]. split; [constructor|].
      split; [intro; cbn; lia|constructor].
    + destruct (getUserRange_ok db o Hf) as (q & args & ->).
      do 3 eexists. split; [reflexivity|]. split; [reflexivity|].
      split; [intro H; now contradiction H|].
      rewrite buildUserJSONArray_map. split; [|split].
      * rewrite !map_map. apply range_groups_names_nodup.
      * intro Hl. unfold len. rewrite !length_map.
        now apply range_groups_at_most.
      * apply Forall_forall. intros j Hj.
        rewrite map_map in Hj. apply in_map_iff in Hj.
        destruct Hj as (g & <- & _). reflexivity.
Qed.

(** ** Pages of the range listing *)

Lemma StronglySorted_app_inv {A : Type} (R : A -> A -> Prop) (l1 l2 : list A) :
  StronglySorted R (l1 ++ l2) ->
  StronglySorted R l1 /\ StronglySorted R l2 /\
  (forall x y, In x l1 -> In y l2 -> R x y).
Proof.
  induction l1 as [|a l1 IH]; cbn [app]; intro H.
  - split; [constructor|]. split; [assumption|]. intros x y [].
  - inversion H as [|? ? Hs Hall]; subst.
    destruct (IH Hs) as (H1 & H2 & H3).
    rewrite Forall_app in Hall. destruct Hall as [Ha1 Ha2].
    split; [now constructor|]. split; [assumption|].
    intros x y [<-|Hx] Hy.
    + exact (proj1 (Forall_forall _ _) Ha2 _ Hy).
    + now apply H3.
Qed.

Lemma StronglySorted_snoc {A : Type} (R : A -> A -> Prop) (l : list A) (a : A) :
  StronglySorted R l -> Forall (fun x => R x a) l -> StronglySorted R (l ++ [a]).
Proof.
  induction 1 as [|x l Hs IH Hx]; cbn [app]; intro Hall.
  - repeat constructor.
  - inversion Hall as [|? ? Hxa Hla]; subst.
    constructor; [now apply IH|].
    apply Forall_app. split; [assumption|]. now repeat constructor.
Qed.

Lemma StronglySorted_rev {A : Type} (R : A -> A -> Prop) (l : list A) :
  StronglySorted R l -> StronglySorted (fun x y => R y x) (rev l).
Proof.
  induction 1 as [|a l Hs IH Hall]; cbn [rev]; [constructor|].
  apply StronglySorted_snoc; [assumption|].
  apply Forall_forall. intros x Hx. apply in_rev in Hx.
  exact (proj1 (Forall_forall _ _) Hall _ Hx).
Qed.

(** Two lists sorted by an asymmetric relation and with the same
    elements are the same list. *)
Lemma sorted_unique {A : Type} (R : A -> A -> Prop) :
  (forall x y, R x y -> ~ R y x) ->
  forall l1 l2 : list A,
    StronglySorted R l1 -> StronglySorted R l2 ->
    (forall x, In x l1 <-> In x l2) ->
    l1 = l2.
Proof.
  intros Hasym l1. induction l1 as [|a l1 IH]; intros l2 H1 H2 Hin.
  - destruct l2 as [|b l2]; [reflexivity|].
    destruct (proj2 (Hin b) (or_introl eq_refl)).
  - destruct l2 as [|b l2]; [destruct (proj1 (Hin a) (or_introl eq_refl))|].
    inversion H1 as [|? ? Hs1 Ha]; subst. inversion H2 as [|? ? Hs2 Hb]; subst.
    assert (Hab : a = b).
    { destruct (proj1 (Hin a) (or_introl eq_refl)) as [E|Ha2]; [now symmetry|].
      destruct (proj2 (Hin b) (or_introl eq_refl)) as [E|Hb1]; [assumption|].
      exfalso.
      apply (Hasym a b).
      - exact (proj1 (Forall_forall _ _) Ha _ Hb1).
      - exact (proj1 (Forall_forall _ _) Hb _ Ha2). }
    subst b. f_equal. apply IH; [assumption|assumption|].
    intro x. split; intro Hx.
    + destruct (proj1 (Hin x) (or_intror Hx)) as [E|Hx2]; [|assumption].
      subst x. exfalso.
      pose proof (proj1 (Forall_forall _ _) Ha _ Hx) as Hr.
      exact (Hasym _ _ Hr Hr).
    + destruct (proj2 (Hin x) (or_intror Hx)) as [E|Hx1]; [|assumption].
      subst x. exfalso.
      pose proof (proj1 (Forall_forall _ _) Hb _ Hx) as Hr.
      exact (Hasym _ _ Hr Hr).
Qed.

Lemma string_ltb_asym (a b : string) :
  String.ltb a b = true -> String.ltb b a = true -> False.
Proof.
  unfold String.ltb. rewrite (String.compare_antisym a b).
  destruct (String.compare b a); cbn; intros H1 H2; discriminate.
Qed.

Lemma beyond_asym (order : Z) (a b : string) :
  beyond order a b = true -> ~ beyond order b a = true.
Proof.
  unfold beyond. destruct (order =? descOrder); intros H1 H2;
    exact (string_ltb_asym _ _ H1 H2) || exact (string_ltb_asym _ _ H2 H1).
Qed.

(** Filtering the rows by a condition that all rows of a group share,
    then grouping, is grouping and then filtering the groups. *)
Section GroupFilter.

Variable c : Column.
Variable p : Activist -> bool.
Hypothesis p_same_key : forall a a', same_key c a a' = true -> p a = p a'.

Lemma add_row_kept (r : Row) (gs : list Group) :
  p (fst r) = true ->
  filter (fun g => p (fst g)) (add_row c r gs)
  = add_row c r (filter (fun g => p (fst g)) gs).
Proof.
  intro Hr. induction gs as [|g gs IH]; cbn [add_row filter fst].
  - now rewrite Hr.
  - destruct (same_key c (fst g) (fst r)) eqn:E.
    + cbn [filter fst]. rewrite (p_same_key _ _ E), Hr.
      cbn [add_row]. now rewrite E.
    + cbn [filter]. destruct (p (fst g)); [|exact IH].
      cbn [add_row]. rewrite E. f_equal. exact IH.
Qed.

Lemma add_row_dropped (r : Row) (gs : list Group) :
  p (fst r) = false ->
  filter (fun g => p (fst g)) (add_row c r gs)
  = filter (fun g => p (fst g)) gs.
Proof.
  intro Hr. induction gs as [|g gs IH]; cbn [add_row filter fst].
  - now rewrite Hr.
  - destruct (same_key c (fst g) (fst r)) eqn:E.
    + cbn [filter fst]. now rewrite (p_same_key _ _ E), Hr.
    + cbn [filter]. now rewrite IH.
Qed.

Lemma group_fold_filter (rows : list Row) (acc : list Group) :
  fold_left (fun gs r => add_row c r gs)
            (filter (fun r => p (fst r)) rows)
            (filter (fun g => p (fst g)) acc)
  = filter (fun g => p (fst g))
           (fold_left (fun gs r => add_row c r gs) rows acc).
Proof.
  revert acc. induction rows as [|r rows IH]; intro acc; cbn [filter fold_left].
  - reflexivity.
  - destruct (p (fst r)) eqn:E; cbn [fold_left].
    + now rewrite <- (add_row_kept r acc E), IH.
    + now rewrite <- (add_row_dropped r acc E), IH.
Qed.

Lemma group_by_filter_key (rows : list Row) :
  group_by c (filter (fun r => p (fst r)) rows)
  = filter (fun g => p (fst g)) (group_by c rows).
Proof. exact (group_fold_filter rows []). Qed.

End GroupFilter.

Lemma group_by_filter (b : string -> bool) (rows : list Row) :
  group_by col_name (filter (fun r => b (a_name (fst r))) rows)
  = filter (fun g => b (group_name g)) (group_by col_name rows).
Proof.
  apply (group_by_filter_key col_name (fun a => b (a_name a))).
  intros a a' H. apply same_name_iff in H. now rewrite H.
Qed.

Lemma group_by_filter_id (id : Z) (rows : list Row) :
  group_by col_id (filter (fun r => a_id (fst r) =? id) rows)
  = filter (fun g => a_id (fst g) =? id) (group_by col_id rows).
Proof.
  apply (group_by_filter_key col_id (fun a => a_id a =? id)).
  intros a a' H. cbn [same_key] in H. apply Z.eqb_eq in H. now rewrite H.
Qed.

Lemma range_groups_all (order : Z) (t : Tables) :
  range_groups {| opt_Name := ""; opt_Limit := 0; opt_Order := order |} t
  = sort_by (group_leb col_name (order =? descOrder))
            (group_by col_name (joined t)).
Proof. reflexivity. Qed.

Lemma range_groups_first (order n : Z) (t : Tables) :
  0 < n ->
  range_groups {| opt_Name := ""; opt_Limit := n; opt_Order := order |} t
  = firstn (Z.to_nat n)
           (sort_by (group_leb col_name (order =? descOrder))
                    (group_by col_name (joined t))).
Proof.
  intro Hn. unfold range_groups, range_page, range_filter.
  cbn [opt_Name opt_Limit opt_Order String.eqb].
  now replace (n >? 0) with true by (symmetry; apply Z.gtb_lt; lia).
Qed.

Lemma range_groups_beyond_anchor (order : Z) (anchor : string) (t : Tables) :
  anchor <> "" ->
  range_groups {| opt_Name := anchor; opt_Limit := 0; opt_Order := order |} t
  = sort_by (group_leb col_name (order =? descOrder))
            (filter (fun g => beyond order anchor (group_name g))
                    (group_by col_name (joined t))).
Proof.
  intro Ha. unfold range_groups, range_page, range_filter.
  cbn [opt_Name opt_Limit opt_Order Z.gtb Z.compare].
  apply String.eqb_neq in Ha. rewrite Ha.
  now rewrite (group_by_filter (beyond order anchor)).
Qed.

(** The tail of the sorted listing after a page ending in [lastg] is
    what lies beyond the name of [lastg]. *)
Lemma rest_after_page (order : Z) (gs front : list Group) (lastg : Group) (k : nat) :
  StronglySorted (fun g h => beyond order (group_name g) (group_name h) = true) gs ->
  firstn k gs = front ++ [lastg] ->
  forall g : Group,
    In g (skipn k gs)
    <-> In g gs /\ beyond order (group_name lastg) (group_name g) = true.
Proof.
  intros Hs Hk g.
  pose proof (firstn_skipn k gs) as Hsplit.
  rewrite <- Hsplit in Hs.
  destruct (StronglySorted_app_inv _ _ _ Hs) as (Hs1 & _ & Hcross).
  rewrite Hk in Hs1, Hcross.
  destruct (StronglySorted_app_inv _ _ _ Hs1) as (_ & _ & Hfront).
  split.
  - intro Hg. split.
    + rewrite <- Hsplit. apply in_or_app. now right.
    + apply Hcross; [|assumption]. apply in_or_app. right. now left.
  - intros [Hg Hb]. rewrite <- Hsplit, Hk in Hg.
    apply in_app_or in Hg. destruct Hg as [Hg|Hg]; [|assumption].
    exfalso. apply in_app_or in Hg. destruct Hg as [Hg|[<-|[]]].
    + exact (beyond_asym _ _ _ Hb (Hfront g lastg Hg (or_introl eq_refl))).
    + rewrite beyond_irrefl in Hb. discriminate.
Qed.

(** X13: keyset paging loses and repeats nothing.  Take a first page
    of at most [n] rows (empty anchor), let its last record have a
    non-empty name, and ask for everything beyond that name in the same
    direction: the first page followed by that answer is the unlimited
    listing, record for record. *)
Theorem getUserRange_pages_compose :
  forall (db db1 : DB) (order n : Z) (front : list UserExtra) (lastu : UserExtra),
    hd false (faults db) = false ->
    0 < n ->
    getUserRange {| opt_Name := ""; opt_Limit := n; opt_Order := order |} db
    = Returns (front ++ [lastu], None) db1 ->
    name_of lastu <> "" ->
    exists (page2 all : list UserExtra) (db2 db3 : DB),
      getUserRange {| opt_Name := name_of lastu; opt_Limit := 0; opt_Order := order |} db
      = Returns (page2, None) db2 /\
      getUserRange {| opt_Name := ""; opt_Limit := 0; opt_Order := order |} db
      = Returns (all, None) db3 /\
      (front ++ [lastu]) ++ page2 = all.
Proof.
  intros db db1 order n front lastu Hf Hn Hpage Hname.
  destruct (getUserRange_ok db {| opt_Name := ""; opt_Limit := n; opt_Order := order |} Hf)
    as (q1 & a1 & E1).
  rewrite E1 in Hpage. injection Hpage as Hpage _.
  rewrite (range_groups_first _ _ _ Hn) in Hpage.
  destruct (getUserRange_ok db {| opt_Name := name_of lastu; opt_Limit := 0;
                                  opt_Order := order |} Hf) as (q2 & a2 & E2).
  destruct (getUserRange_ok db {| opt_Name := ""; opt_Limit := 0;
                                  opt_Order := order |} Hf) as (q3 & a3 & E3).
  rewrite (range_groups_beyond_anchor _ _ _ Hname) in E2.
  rewrite range_groups_all in E3.
  do 4 eexists. split; [exact E2|]. split; [exact E3|].
  set (G := group_by col_name (joined (committed db))) in *.
  set (leb := group_leb col_name (order =? descOrder)) in *.
  set (k := Z.to_nat n) in *.
  assert (Hsorted : StronglySorted
                      (fun g h => beyond order (group_name g) (group_name h) = true)
                      (sort_by leb G))
    by apply sorted_groups_in_order.
  apply map_eq_app in Hpage.
  destruct Hpage as (l1 & l2 & Hk & Hfront & Hlast).
  destruct l2 as [|lastg [|x l2]]; try discriminate Hlast.
  injection Hlast as Hlast.
  assert (HL : name_of lastu = group_name lastg) by (now rewrite <- Hlast).
  rewrite HL.
  assert (Hrest : sort_by leb (filter (fun g => beyond order (group_name lastg)
                                                       (group_name g)) G)
                  = skipn k (sort_by leb G)).
  { apply (sorted_unique
             (fun g h => beyond order (group_name g) (group_name h) = true)).
    - intros g h. apply beyond_asym.
    - unfold G, leb. rewrite <- (group_by_filter (beyond order (group_name lastg))).
      apply sorted_groups_in_order.
    - rewrite <- (firstn_skipn k (sort_by leb G)) in Hsorted.
      now destruct (StronglySorted_app_inv _ _ _ Hsorted) as (_ & H2 & _).
    - intro g. rewrite (rest_after_page order _ l1 lastg k Hsorted Hk g).
      split.
      + intro Hg. apply (Permutation_in _ (sort_by_perm _ _)) in Hg.
        apply filter_In in Hg. destruct Hg as [Hg Hb]. split; [|assumption].
        now apply (Permutation_in _ (Permutation_sym (sort_by_perm _ _))).
      + intros [Hg Hb].
        apply (Permutation_in _ (Permutation_sym (sort_by_perm _ _))).
        apply filter_In. split; [|assumption].
        now apply (Permutation_in _ (sort_by_perm _ _)) in Hg. }
  rewrite Hrest, <- Hfront, <- Hlast.
  change [scan_UserExtra true lastg] with (map (scan_UserExtra true) [lastg]).
  rewrite <- !map_app, <- Hk. now rewrite firstn_skipn.
Qed.

(** X14: the descending listing is the ascending one read backwards.
    With an empty anchor and no limit, when the queries reach the store,
    [getUserRange] in descending order returns the reverse of what it
    returns in ascending order. *)
Theorem getUserRange_descending_is_reverse :
  forall db : DB,
    hd false (faults db) = false ->
    exists (up down : list UserExtra) (db1 db2 : DB),
      getUserRange {| opt_Name := ""; opt_Limit := 0; opt_Order := ascOrder |} db
      = Returns (up, None) db1 /\
      getUserRange {| opt_Name := ""; opt_Limit := 0; opt_Order := descOrder |} db
      = Returns (down, None) db2 /\
      down = rev up.
Proof.
  intros db Hf.
  destruct (getUserRange_ok db {| opt_Name := ""; opt_Limit := 0;
                                  opt_Order := ascOrder |} Hf) as (q1 & a1 & E1).
  destruct (getUserRange_ok db {| opt_Name := ""; opt_Limit := 0;
                                  opt_Order := descOrder |} Hf) as (q2 & a2 & E2).
  rewrite range_groups_all in E1, E2.
  do 4 eexists. split; [exact E1|]. split; [exact E2|].
  rewrite <- map_rev. f_equal.
  apply (sorted_unique
           (fun g h => beyond descOrder (group_name g) (group_name h) = true)).
  - intros g h. apply beyond_asym.
  - apply sorted_groups_in_order.
  - apply (StronglySorted_rev
             (fun g h => beyond ascOrder (group_name g) (group_name h) = true)).
    apply sorted_groups_in_order.
  - intro g. rewrite <- in_rev. split; intro Hg.
    + apply (Permutation_in _ (Permutation_sym (sort_by_perm _ _))).
      now apply (Permutation_in _ (sort_by_perm _ _)) in Hg.
    + apply (Permutation_in _ (Permutation_sym (sort_by_perm _ _))).
      now apply (Permutation_in _ (sort_by_perm _ _)) in Hg.
Qed.

(** ** The lookup by name never panics *)

(** X15: [GetUser] returns for every name and every fault schedule; its
    index expression is guarded by the two length tests and cannot panic.
    It only reads.  With an error the record is the zero record and the
    error is one of three: not found, too many, or the wrapped failure of
    the store.  Without an error, for a non-empty name, the record
    carries that name; its pledge flag is always 0. *)
Theorem GetUser_never_panics :
  forall (db : DB) (name : string),
    exists (u : User) (err : error) (db' : DB),
      GetUser name db = Returns (u, err) db' /\
      committed db' = committed db /\
      LiberationPledge u = 0 /\
      (err <> None ->
       u = User_zero /\
       (err = Some NotFound \/ err = Some AmbiguousResult \/
        err = Some (errors_Wrapf driver_ErrBadConn "failed to get users for %s"
                                 [ArgString name]))) /\
      (err = None -> name <> "" -> Name u = name).
Proof.
  intros db name. rewrite GetUser_eq.
  destruct (GetUser_answer name db) as [u err] eqn:Hans.
  do 3 eexists. split; [reflexivity|]. split; [reflexivity|].
  assert (Hshape :
            (err = None /\ LiberationPledge u = 0) \/
            (u = User_zero /\
             (err = Some NotFound \/ err = Some AmbiguousResult \/
              err = Some (errors_Wrapf driver_ErrBadConn "failed to get users for %s"
                                       [ArgString name])))).
  { unfold GetUser_answer in Hans.
    destruct (hd false (faults db)).
    - injection Hans as <- <-. right. auto.
    - destruct (sort_by by_name (looked_up name (activists (committed db))))
        as [|a [|b l]]; injection Hans as <- <-; [right|left|right]; auto. }
  split; [|split].
  - destruct Hshape as [[_ H]|[-> _]]; [exact H|reflexivity].
  - intro Hne. destruct Hshape as [[H _]|H]; [contradiction|exact H].
  - intros -> Hname. exact (GetUser_answer_name _ _ _ Hname Hans).
Qed.

(** ** Ids stay unique *)

(** X16: [GetOrCreateUser] keeps the ids of the table apart.  If, with
    no transaction open, every id in the table is below the counter of
    the table and the ids are pairwise different, then after the call,
    whatever the fault schedule, both still hold, and the counter has not
    gone down. *)
Theorem GetOrCreateUser_keeps_ids_unique :
  forall (db : DB) (name : string),
    tx db = None ->
    (forall a, In a (activists (committed db)) -> a_id a < auto_increment db) ->
    NoDup (map a_id (activists (committed db))) ->
    exists (r : User * error) (db' : DB),
      GetOrCreateUser name db = Returns r db' /\
      (forall a, In a (activists (committed db')) -> a_id a < auto_increment db') /\
      NoDup (map a_id (activists (committed db'))) /\
      auto_increment db <= auto_increment db'.
Proof.
  intros db name Htx Hbelow Hnd. rewrite (GetOrCreateUser_eq _ _ Htx).
  destruct (snd (GetUser_answer name db)) as [e|].
  - unfold insert_path.
    cbn [faults after_call set_log set_faults set_auto_increment].
    destruct (hd false (tl (faults db)));
      [|destruct (hd false (tl (tl (faults db))));
        [|destruct (hd false (tl (tl (tl (faults db)))));
          [|destruct (hd false (tl (tl (tl (tl (faults db))))))]]];
      do 2 eexists; (split; [reflexivity|]);
      cbn [committed auto_increment set_committed set_log set_faults
           set_auto_increment after_call activists set_activists];
      try (split; [|split; [exact Hnd|lia]];
           intros a Ha; specialize (Hbelow a Ha); lia).
    split; [|split; [|lia]].
    + intros a Ha. apply in_app_or in Ha. destruct Ha as [Ha|[<-|[]]].
      * specialize (Hbelow a Ha). lia.
      * cbn [new_activist a_id]. lia.
    + rewrite map_app. cbn [map new_activist a_id].
      apply NoDup_app; [exact Hnd|repeat constructor; intros []|].
      intros i Hi [<-|[]]. apply in_map_iff in Hi.
      destruct Hi as (a & Hai & Ha). specialize (Hbelow a Ha). lia.
  - do 2 eexists. split; [reflexivity|].
    cbn [committed auto_increment after_call set_log set_faults].
    split; [exact Hbelow|]. split; [exact Hnd|lia].
Qed.

(** ** The listing by id and the full listing *)

(** X17: the listing by id is the full listing filtered by id.  For a
    non-zero [userID], when the queries reach the store, [GetUsersExtra]
    returns exactly the records of the full listing ([userID] 0) that
    have this id, aggregates and status included. *)
Theorem GetUsersExtra_by_id_is_filtered_listing :
  forall (db : DB) (userID : Z),
    userID <> 0 ->
    hd false (faults db) = false ->
    exists (all one : list UserExtra) (db1 db2 : DB),
      GetUsersExtra 0 db = Returns (all, None) db1 /\
      GetUsersExtra userID db = Returns (one, None) db2 /\
      one = filter (fun u => ID (UserExtra_User u) =? userID) all.
Proof.
  intros db userID Hid Hf.
  rewrite !(GetUsersExtra_ok _ _ Hf).
  do 4 eexists. split; [reflexivity|]. split; [reflexivity|].
  change (listed 0 (committed db)) with (joined (committed db)).
  unfold listed. apply Z.eqb_neq in Hid. rewrite Hid.
  rewrite group_by_filter_id, !filter_of_map. reflexivity.
Qed.

(** ** The first page, record for record *)

Lemma getUserRange_first_page_run (db : DB) (o : UserOptionsJSON) :
  opt_Name o = "" ->
  hd false (faults db) = false ->
  getUserRange o db
  = Returns (map (scan_UserExtra true) (range_groups o (committed db)), None)
            (after_call (OpSelect (first_page_query (opt_Order o) (opt_Limit o))
                                  (first_page_args (opt_Limit o))) db).
Proof.
  destruct o as [name limit order]. cbn [opt_Name opt_Limit opt_Order].
  intros -> Hf.
  unfold getUserRange, range_groups, range_filter, range_page,
    first_page_query, first_page_args.
  cbn [opt_Name opt_Limit opt_Order String.eqb negb].
  destruct (order =? descOrder); destruct (limit >? 0) eqn:Hl; cbn [app];
    unfold db_Select, bind; rewrite store_call_eq, Hf;
    unfold get_db; cbn [committed after_call set_log set_faults];
    read_query;
    cbv beta iota zeta delta
      [eval_select apply_where where_rows apply_group apply_order apply_limit
       sel_extra sel_where sel_group sel_order sel_limit];
    try (replace (limit <? 0) with false
          by (symmetry; apply Z.ltb_ge; apply Z.gtb_lt in Hl; lia));
    cbv beta iota;
    rewrite scan_all_UserExtra; reflexivity.
Qed.

Lemma filter_single {A : Type} (key : A -> string) (l : list A) (x : A) :
  NoDup (map key l) -> In x l ->
  filter (fun y => String.eqb (key x) (key y)) l = [x].
Proof.
  induction l as [|y l IH]; intros Hnd Hin; [destruct Hin|].
  cbn [map] in Hnd. inversion Hnd as [|? ? Hnotin Hnd']; subst.
  cbn [filter]. destruct Hin as [->|Hin].
  - rewrite String.eqb_refl. f_equal. apply filter_nil. intros z Hz.
    apply String.eqb_neq. intro E. apply Hnotin. rewrite E. now apply in_map.
  - replace (String.eqb (key x) (key y)) with false; [now apply IH|].
    symmetry. apply String.eqb_neq. intro E. apply Hnotin. rewrite <- E.
    now apply in_map.
Qed.

(** A group of GROUP BY a.name is made of all the rows of its name: its
    columns come from the first of them, its events from all of them. *)
Lemma group_by_name_member (rows : list Row) (g : Group) :
  In g (group_by col_name rows) ->
  exists (r : Row) (rest : list Row),
    filter (fun r => String.eqb (group_name g) (a_name (fst r))) rows = r :: rest /\
    g = (fst r, map snd (r :: rest)).
Proof.
  intro Hg.
  pose proof (group_by_filter (String.eqb (group_name g)) rows) as Hf.
  assert (Hone : filter (fun h : Group => String.eqb (group_name g) (group_name h))
                        (group_by col_name rows) = [g]).
  { apply (filter_single group_name); [|assumption].
    rewrite names_map_fst. apply group_by_name_nodup. }
  rewrite Hone in Hf.
  destruct (filter (fun r => String.eqb (group_name g) (a_name (fst r))) rows)
    as [|r rest] eqn:E; [discriminate Hf|].
  exists r, rest. split; [reflexivity|].
  rewrite group_by_same_key in Hf; [now injection Hf as <-|].
  intros r' Hr'.
  assert (H1 : In r (r :: rest)) by now left.
  assert (H2 : In r' (r :: rest)) by now right.
  rewrite <- E in H1, H2. apply filter_In in H1, H2.
  destruct H1 as [_ H1], H2 as [_ H2]. apply String.eqb_eq in H1, H2.
  apply same_name_iff. congruence.
Qed.

Lemma joined_named (t : Tables) (n : string) :
  filter (fun r => String.eqb n (a_name (fst r))) (joined t)
  = flat_map (joined_rows t) (named n (activists t)).
Proof.
  unfold named. rewrite joined_eq, filter_of_flat_map, flat_map_of_filter.
  apply flat_map_ext. intro a. rewrite (String.eqb_sym (a_name a) n).
  destruct (String.eqb n (a_name a)) eqn:E.
  - apply filter_all. intros r Hr. now rewrite (joined_rows_fst _ _ _ Hr).
  - apply filter_nil. intros r Hr. now rewrite (joined_rows_fst _ _ _ Hr).
Qed.

Lemma listed_group_is_merged (t : Tables) (g : Group) :
  In g (group_by col_name (joined t)) ->
  exists (a : Activist) (others : list Activist),
    named (group_name g) (activists t) = a :: others /\
    scan_UserExtra true g = merged_record t a others.
Proof.
  intro Hg. destruct (group_by_name_member _ _ Hg) as (r & rest & Hrows & ->).
  rewrite joined_named in Hrows.
  destruct (named (group_name (fst r, map snd (r :: rest))) (activists t))
    as [|a others]; [discriminate Hrows|].
  exists a, others. split; [reflexivity|]. unfold merged_record.
  rewrite Hrows. do 2 f_equal.
  cbn [flat_map] in Hrows.
  destruct (joined_rows_head t a) as (e & rows & Ha).
  rewrite Ha in Hrows. cbn [app] in Hrows. now injection Hrows as <- _.
Qed.

Lemma NoDup_map_injective {A B : Type} (f : A -> B) (l : list A) (x y : A) :
  NoDup (map f l) -> In x l -> In y l -> f x = f y -> x = y.
Proof.
  induction l as [|z l IH]; intros Hnd Hx Hy E; [destruct Hx|].
  cbn [map] in Hnd. inversion Hnd as [|? ? Hnotin Hnd']; subst.
  destruct Hx as [->|Hx], Hy as [->|Hy].
  - reflexivity.
  - exfalso. apply Hnotin. rewrite E. now apply in_map.
  - exfalso. apply Hnotin. rewrite <- E. now apply in_map.
  - now apply IH.
Qed.

(** When the names of the table are pairwise different, the groups are
    the rows of the table. *)
Lemma group_by_name_rows (t : Tables) :
  NoDup (map a_name (activists t)) ->
  Permutation (map fst (group_by col_name (joined t))) (activists t).
Proof.
  intro Hnd.
  assert (Hin : forall a, In a (map fst (group_by col_name (joined t)))
                          -> In a (activists t)).
  { intros a Ha. unfold group_by in Ha. apply group_fold_reps_in in Ha.
    destruct Ha as [[]|Ha]. now apply joined_reps. }
  apply NoDup_Permutation.
  - apply (NoDup_map_inv a_name). apply group_by_name_nodup.
  - now apply (NoDup_map_inv a_name).
  - intro a. split; [apply Hin|]. intro Ha.
    assert (Hn : In (a_name a) (map a_name (map fst (group_by col_name (joined t))))).
    { apply group_by_name_names. apply in_map. now apply joined_reps. }
    apply in_map_iff in Hn. destruct Hn as (a' & E & Ha').
    rewrite <- (NoDup_map_injective a_name _ a' a Hnd (Hin _ Ha') Ha E).
    exact Ha'.
Qed.

(** C6: with an empty anchor, a valid order and a query that reaches
    the store, [getUserRange] returns without error, after one SELECT
    that has no WHERE clause and has a LIMIT clause only for a positive
    limit.  The unlimited listing [all] (the same call with limit 0) is
    fixed record for record: it has one record for every name of the
    table and none else, strictly ordered by name in the direction of the
    order, and the record of a name is made of all the rows with that
    name, with the columns of the first of them and the aggregates over
    the events of all of them; when the names of the table are pairwise
    different these are the rows of the table, each once.  The call
    returns [all] when the limit is not positive and its first [limit]
    records when it is. *)
Theorem getUserRange_first_page :
  forall (db : DB) (o : UserOptionsJSON),
    opt_Name o = "" ->
    opt_Order o = ascOrder \/ opt_Order o = descOrder ->
    hd false (faults db) = false ->
    exists (users all : list UserExtra) (db' db'' : DB),
      getUserRange o db = Returns (users, None) db' /\
      getUserRange (set_Limit 0 o) db = Returns (all, None) db'' /\
      db' = after_call (OpSelect (first_page_query (opt_Order o) (opt_Limit o))
                                 (first_page_args (opt_Limit o))) db /\
      users = (if opt_Limit o >? 0
               then firstn (Z.to_nat (opt_Limit o)) all else all) /\
      StronglySorted (in_order (opt_Order o)) all /\
      (forall n : string,
          In n (map name_of all) <-> In n (map a_name (activists (committed db)))) /\
      Forall (fun u =>
                exists (a : Activist) (others : list Activist),
                  named (name_of u) (activists (committed db)) = a :: others /\
                  u = merged_record (committed db) a others)
             all /\
      (NoDup (map a_name (activists (committed db))) ->
       Permutation (map UserExtra_User all)
                   (map (scan_User_columns true) (activists (committed db)))).
Proof.
  intros db o Hname _ Hf.
  rewrite (getUserRange_first_page_run db o Hname Hf).
  rewrite (getUserRange_first_page_run db (set_Limit 0 o) Hname Hf).
  do 4 eexists. split; [reflexivity|]. split; [reflexivity|].
  split; [reflexivity|].
  assert (Hall : range_groups (set_Limit 0 o) (committed db)
                 = sort_by (group_leb col_name (opt_Order o =? descOrder))
                           (group_by col_name (joined (committed db)))).
  { unfold range_groups, range_page, range_filter.
    cbn [opt_Name opt_Limit opt_Order set_Limit Z.gtb Z.compare].
    now rewrite Hname. }
  split; [|split; [|split; [|split]]].
  - rewrite range_groups_set_Limit.
    destruct (opt_Limit o >? 0); [|reflexivity].
    symmetry. apply firstn_map.
  - apply StronglySorted_map. rewrite Hall.
    exact (sorted_groups_in_order (opt_Order o) (joined (committed db))).
  - intro n. rewrite names_of_scanned, Hall, sorted_groups_names.
    split; intro H.
    + apply in_map_iff in H. destruct H as (a & <- & Ha).
      apply in_map, joined_reps, Ha.
    + apply in_map_iff in H. destruct H as (a & <- & Ha).
      apply in_map, joined_reps, Ha.
  - apply Forall_forall. intros u Hu. apply in_map_iff in Hu.
    destruct Hu as (g & <- & Hg). rewrite Hall in Hg.
    apply (Permutation_in _ (sort_by_perm _ _)) in Hg.
    exact (listed_group_is_merged _ _ Hg).
  - intro Hnd. rewrite Hall, map_map.
    change (fun g : Group => UserExtra_User (scan_UserExtra true g))
      with (fun g : Group => scan_User_columns true (fst g)).
    rewrite <- (map_map fst (scan_User_columns true)).
    apply Permutation_map.
    rewrite (Permutation_map fst (sort_by_perm _ _)).
    now apply group_by_name_rows.
Qed.

End Coverage.

(** * The theorems at work on the fixtures *)

Lemma GetUserJSON_unknown_id_panics_witness :
  9 <> 0 /\
  hd false (faults fixture_db) = false /\
  with_id 9 (activists (committed fixture_db)) = [] /\
  exists db' : DB,
    @GetUserJSON testEnv 9 fixture_db
    = Panics "runtime error: index out of range" db'.
Proof.
  assert (H1 : 9 <> 0) by lia.
  assert (H2 : hd false (faults fixture_db) = false) by reflexivity.
  assert (H3 : with_id 9 (activists (committed fixture_db)) = []) by reflexivity.
  split; [exact H1|]. split; [exact H2|]. split; [exact H3|].
  exact (@GetUserJSON_unknown_id_panics testEnv fixture_db 9 H1 H2 H3).
Defined.

Lemma getUserRange_after_anchor_witness :
  opt_Name after_Bob <> "" /\
  (opt_Order after_Bob = ascOrder \/ opt_Order after_Bob = descOrder) /\
  exists (users : list UserExtra) (err : error) (db' : DB),
    getUserRange after_Bob fixture_db = Returns (users, err) db' /\
    Forall (fun u => beyond (opt_Order after_Bob) (opt_Name after_Bob) (name_of u) = true)
           users /\
    StronglySorted (in_order (opt_Order after_Bob)) users /\
    ~ In (opt_Name after_Bob) (map name_of users) /\
    (hd false (faults fixture_db) = false ->
     err = None /\
     (opt_Limit after_Bob <= 0 ->
      forall n : string,
        In n (map name_of users)
        <-> In n (map a_name (activists (committed fixture_db))) /\
            beyond (opt_Order after_Bob) (opt_Name after_Bob) n = true)).
Proof.
  assert (H1 : opt_Name after_Bob <> "") by discriminate.
  assert (H2 : opt_Order after_Bob = ascOrder \/ opt_Order after_Bob = descOrder)
    by (left; reflexivity).
  split; [exact H1|]. split; [exact H2|].
  exact (getUserRange_after_anchor fixture_db after_Bob H1 H2).
Defined.

Lemma GetUserRangeJSON_invalid_order_witness :
  opt_Order bad_order <> ascOrder /\
  opt_Order bad_order <> descOrder /\
  @GetUserRangeJSON testEnv bad_order fixture_db
  = Returns ([], Some ValidationError) fixture_db.
Proof.
  assert (H1 : opt_Order bad_order <> ascOrder) by discriminate.
  assert (H2 : opt_Order bad_order <> descOrder) by discriminate.
  split; [exact H1|]. split; [exact H2|].
  exact (@GetUserRangeJSON_invalid_order testEnv fixture_db bad_order H1 H2).
Defined.

Lemma GetUser_by_nonempty_name_witness :
  "Alice" <> "" /\
  hd false (faults fixture_db) = false /\
  exists db' : DB,
    GetUser "Alice" fixture_db
    = Returns (match named "Alice" (activists (committed fixture_db)) with
               | [] => (User_zero, Some NotFound)
               | [a] => (scan_User_columns false a, None)
               | _ :: _ :: _ => (User_zero, Some AmbiguousResult)
               end) db' /\
    committed db' = committed fixture_db.
Proof.
  assert (H1 : "Alice" <> "") by discriminate.
  assert (H2 : hd false (faults fixture_db) = false) by reflexivity.
  split; [exact H1|]. split; [exact H2|].
  exact (GetUser_by_nonempty_name fixture_db "Alice" H1 H2).
Defined.

(** The claim of C4 read for every name fails at the empty one: no row
    of [one_stranger] has the empty name, yet the lookup returns the
    record of its only row and no error. *)
Lemma GetUser_empty_name_counterexample :
  ~ (forall (db : DB) (name : string),
        hd false (faults db) = false ->
        named name (activists (committed db)) = [] ->
        exists (u : User) (db' : DB),
          GetUser name db = Returns (u, Some NotFound) db').
Proof.
  intro H.
  destruct (H (mkDB one_stranger 2 []) "" eq_refl eq_refl) as (u & db' & E).
  vm_compute in E. discriminate E.
Qed.

Lemma GetOrCreateUser_creates_once_or_rolls_back_witness :
  "Zed" <> "" /\
  tx fixture_db_six_calls = None /\
  named "Zed" (activists (committed fixture_db_six_calls)) = [] /\
  faults fixture_db_six_calls = [false; false; false; false; false; false] /\
  exists (r : User * error) (db1 : DB),
    @GetOrCreateUser testEnv "Zed" fixture_db_six_calls = Returns r db1 /\
    tx db1 = None /\
    r = (scan_User_columns false (@new_activist testEnv 6 "Zed"), None) /\
    committed db1
    = set_activists (activists fixture ++ [@new_activist testEnv 6 "Zed"]) fixture /\
    log db1
    = [OpSelect ((selectUserBaseQuery ++ " WHERE name = ? ")
                   ++ " ORDER BY name ")%string [ArgString "Zed"];
       OpBeginx;
       OpExec "INSERT INTO activists (name) VALUES (?)" [ArgString "Zed"];
       OpGet (selectUserBaseQuery ++ " WHERE name = ? ")%string [ArgString "Zed"];
       OpCommit] /\
    exists db2 : DB,
      @GetOrCreateUser testEnv "Zed" db1 = Returns r db2 /\
      committed db2 = committed db1 /\
      log db2
      = log db1 ++
        [OpSelect ((selectUserBaseQuery ++ " WHERE name = ? ")
                     ++ " ORDER BY name ")%string [ArgString "Zed"]].
Proof.
  assert (H1 : "Zed" <> "") by discriminate.
  assert (H2 : tx fixture_db_six_calls = None) by reflexivity.
  assert (H3 : named "Zed" (activists (committed fixture_db_six_calls)) = [])
    by reflexivity.
  assert (H4 : faults fixture_db_six_calls
               = [false; false; false; false; false; false]) by reflexivity.
  split; [exact H1|]. split; [exact H2|]. split; [exact H3|]. split; [exact H4|].
  exact (@GetOrCreateUser_creates_once_or_rolls_back testEnv
           fixture_db_six_calls "Zed" false false false false false [] H1 H2 H3 H4).
Defined.

(** The claim of C5 read for every name fails at the empty one.  No row
    of [two_strangers] has the empty name; the first call inserts one;
    the second call looks up every row, finds three, takes that for a
    failure and inserts a second row with the empty name. *)
Lemma GetOrCreateUser_empty_name_counterexample :
  ~ (forall (db : DB) (name : string),
        tx db = None ->
        faults db = [] ->
        named name (activists (committed db)) = [] ->
        exists (u : User) (db1 db2 : DB),
          @GetOrCreateUser testEnv name db = Returns (u, None) db1 /\
          @GetOrCreateUser testEnv name db1 = Returns (u, None) db2 /\
          committed db2 = committed db1).
Proof.
  intro H.
  destruct (H (mkDB two_strangers 3 []) "" eq_refl eq_refl eq_refl)
    as (u & db1 & db2 & E1 & E2 & Hsame).
  vm_compute in E1. injection E1 as _ Hdb1. subst db1.
  vm_compute in E2. injection E2 as _ Hdb2. subst db2.
  vm_compute in Hsame. discriminate Hsame.
Qed.

Lemma buildUserJSONArray_dates_location_flags_witness :
  nth_error [nobody] 0 = Some nobody /\
  exists j : UserJSON,
    nth_error (@buildUserJSONArray testEnv [nobody]) 0 = Some j /\
    UserJSON.FirstEvent j = "" /\
    UserJSON.LastEvent j = "" /\
    UserJSON.Location j = "" /\
    UserJSON.Core j = 0.
Proof.
  assert (H1 : nth_error [nobody] 0 = Some nobody) by reflexivity.
  split; [exact H1|].
  destruct (@buildUserJSONArray_dates_location_flags testEnv [nobody] 0%nat nobody H1)
    as (j & Hj & _ & Hfirst & Hlast & Hloc & Hcore & _).
  exists j. repeat split; assumption.
Defined.

Lemma GetOrCreateUser_inserts_after_any_lookup_error_witness :
  tx fixture_db = None /\
  tl (faults fixture_db) = [] /\
  GetUser "Bob" fixture_db
  = Returns (User_zero, Some AmbiguousResult)
            (after_call (OpSelect (getUsers_query "Bob") (getUsers_args "Bob"))
                        fixture_db) /\
  exists (u : User) (db' : DB),
    @GetOrCreateUser testEnv "Bob" fixture_db = Returns (u, None) db' /\
    activists (committed db')
    = activists fixture ++ [@new_activist testEnv 6 "Bob"] /\
    named "Bob" (activists (committed db'))
    = [mkActivist 3 "Bob"; mkActivist 5 "Bob"; @new_activist testEnv 6 "Bob"] /\
    In (OpExec "INSERT INTO activists (name) VALUES (?)" [ArgString "Bob"])
       (log db').
Proof.
  assert (H1 : tx fixture_db = None) by reflexivity.
  assert (H2 : tl (faults fixture_db) = []) by reflexivity.
  assert (H3 : GetUser "Bob" fixture_db
               = Returns (User_zero, Some AmbiguousResult)
                         (after_call (OpSelect (getUsers_query "Bob")
                                               (getUsers_args "Bob"))
                                     fixture_db))
    by (vm_compute; reflexivity).
  split; [exact H1|]. split; [exact H2|]. split; [exact H3|].
  exact (@GetOrCreateUser_inserts_after_any_lookup_error testEnv
           fixture_db _ "Bob" User_zero AmbiguousResult H1 H2 H3).
Defined.

(** The other way into the insert: the lookup itself does not reach the
    store, although the row is there; a second Alice is inserted. *)
Example GetOrCreateUser_after_store_error :
  exists (u : User) (db' : DB),
    @GetOrCreateUser testEnv "Alice" (mkDB fixture 6 [true]) = Returns (u, None) db' /\
    named "Alice" (activists (committed db'))
    = [mkActivist 2 "Alice"; mkActivist 6 "Alice"].
Proof. do 2 eexists. split; vm_compute; reflexivity. Qed.

Lemma UpdateActivistData_unknown_id_witness :
  hd false (faults fixture_db) = false /\
  with_id (ID (UserExtra_User nobody)) (activists (committed fixture_db)) = [] /\
  exists db' : DB,
    UpdateActivistData nobody fixture_db
    = Returns (ID (UserExtra_User nobody), None) db' /\
    committed db' = committed fixture_db /\
    log db' = log fixture_db ++ [OpNamedExec updateActivistStmt nobody].
Proof.
  assert (H1 : hd false (faults fixture_db) = false) by reflexivity.
  assert (H2 : with_id (ID (UserExtra_User nobody))
                       (activists (committed fixture_db)) = []) by reflexivity.
  split; [exact H1|]. split; [exact H2|].
  exact (UpdateActivistData_unknown_id fixture_db nobody H1 H2).
Defined.

Lemma GetUserJSON_zero_is_first_of_listing_witness :
  hd false (faults fixture_db) = false /\
  activists (committed fixture_db)
  = mkActivist 1 "Carol"
    :: [mkActivist 2 "Alice"; mkActivist 3 "Bob"; mkActivist 4 "Dave";
        mkActivist 5 "Bob"] /\
  exists (j : UserJSON) (others : list UserJSON) (db' : DB),
    @GetUsersJSON testEnv fixture_db = Returns (j :: others, None) db' /\
    @GetUserJSON testEnv 0 fixture_db = Returns (j, None) db' /\
    UserJSON.ID j = 1 /\
    UserJSON.Name j = "Carol" /\
    log db' = log fixture_db
              ++ [OpSelect (selectUserExtraBaseQuery ++ " GROUP BY a.id ")%string []].
Proof.
  assert (H1 : hd false (faults fixture_db) = false) by reflexivity.
  assert (H2 : activists (committed fixture_db)
               = mkActivist 1 "Carol"
                 :: [mkActivist 2 "Alice"; mkActivist 3 "Bob"; mkActivist 4 "Dave";
                     mkActivist 5 "Bob"]) by reflexivity.
  split; [exact H1|]. split; [exact H2|].
  exact (@GetUserJSON_zero_is_first_of_listing testEnv fixture_db _ _ H1 H2).
Defined.

(** A row with id 0 is out of reach: asked for id 0, the listing answers
    with its first row, here the row with id 7. *)
Example GetUserJSON_zero_misses_row_zero :
  exists (j : UserJSON) (db' : DB),
    @GetUserJSON testEnv 0
      (mkDB {| activists := [mkActivist 7 "Eve"; mkActivist 0 "Zero"];
               event_attendance := []; events := [] |} 8 [])
    = Returns (j, None) db' /\
    UserJSON.ID j = 7 /\ UserJSON.Name j = "Eve".
Proof. do 2 eexists. split; [vm_compute; reflexivity|]. split; reflexivity. Qed.

(** * The further properties at work on the fixtures *)

Lemma GetUsers_every_row_by_name_witness :
  hd false (faults fixture_db) = false /\
  exists (users : list User) (db' : DB),
    GetUsers fixture_db = Returns (users, None) db' /\
    Permutation users (map (scan_User_columns false) (activists fixture)) /\
    StronglySorted (fun u v => String.leb (Name u) (Name v) = true) users /\
    Forall (fun u => LiberationPledge u = 0) users /\
    committed db' = fixture.
Proof.
  assert (H1 : hd false (faults fixture_db) = false) by reflexivity.
  split; [exact H1|].
  exact (GetUsers_every_row_by_name fixture_db H1).
Defined.

Lemma GetOrCreateUser_existing_row_witness :
  "Alice" <> "" /\
  hd false (faults fixture_db) = false /\
  named "Alice" (activists (committed fixture_db)) = [mkActivist 2 "Alice"] /\
  exists db' : DB,
    @GetOrCreateUser testEnv "Alice" fixture_db
    = Returns (scan_User_columns false (mkActivist 2 "Alice"), None) db' /\
    log db'
    = log fixture_db
      ++ [OpSelect ((selectUserBaseQuery ++ " WHERE name = ? ")
                      ++ " ORDER BY name ")%string [ArgString "Alice"]] /\
    committed db' = committed fixture_db /\
    tx db' = tx fixture_db /\
    auto_increment db' = auto_increment fixture_db.
Proof.
  assert (H1 : "Alice" <> "") by discriminate.
  assert (H2 : hd false (faults fixture_db) = false) by reflexivity.
  assert (H3 : named "Alice" (activists (committed fixture_db))
               = [mkActivist 2 "Alice"]) by reflexivity.
  split; [exact H1|]. split; [exact H2|]. split; [exact H3|].
  exact (@GetOrCreateUser_existing_row testEnv fixture_db "Alice" _ H1 H2 H3).
Defined.

Lemma GetOrCreateUser_all_or_nothing_witness :
  tx fixture_db = None /\
  exists (u : User) (err : error) (db' : DB),
    @GetOrCreateUser testEnv "Zed" fixture_db = Returns (u, err) db' /\
    tx db' = None /\
    (err <> None -> u = User_zero /\ committed db' = committed fixture_db) /\
    (err = None ->
     (committed db' = committed fixture_db \/
      committed db'
      = set_activists
          (activists (committed fixture_db)
           ++ [@new_activist testEnv (auto_increment fixture_db) "Zed"])
          (committed fixture_db)) /\
     ("Zed" <> "" -> Name u = "Zed")).
Proof.
  assert (H1 : tx fixture_db = None) by reflexivity.
  split; [exact H1|].
  exact (@GetOrCreateUser_all_or_nothing testEnv fixture_db "Zed" H1).
Defined.

Lemma UpdateActivistData_read_back_witness :
  ID (UserExtra_User alice_rewritten) <> 0 /\
  hd false (faults fixture_db) = false /\
  hd false (tl (faults fixture_db)) = false /\
  with_id (ID (UserExtra_User alice_rewritten)) (activists (committed fixture_db))
  <> [] /\
  exists (db1 : DB) (u : UserExtra) (db2 : DB),
    UpdateActivistData alice_rewritten fixture_db = Returns (2, None) db1 /\
    @GetUsersExtra testEnv 2 db1 = Returns ([u], None) db2 /\
    Name (UserExtra_User u) = "Alicia" /\
    Location (UserExtra_User u) = {| String_ := "Oakland"; Valid := true |} /\
    UserExtra_UserMembershipData u = UserExtra_UserMembershipData alice_rewritten.
Proof.
  assert (H1 : ID (UserExtra_User alice_rewritten) <> 0) by discriminate.
  assert (H2 : hd false (faults fixture_db) = false) by reflexivity.
  assert (H3 : hd false (tl (faults fixture_db)) = false) by reflexivity.
  assert (H4 : with_id (ID (UserExtra_User alice_rewritten))
                       (activists (committed fixture_db)) <> []) by discriminate.
  split; [exact H1|]. split; [exact H2|]. split; [exact H3|]. split; [exact H4|].
  destruct (@UpdateActivistData_read_back testEnv fixture_db alice_rewritten
              H1 H2 H3 H4)
    as (db1 & u & db2 & E1 & E2 & _ & Hn & _ & _ & _ & _ & _ & Hv & Hs & Hm).
  exists db1, u, db2. split; [exact E1|]. split; [exact E2|].
  split; [exact Hn|]. split; [|exact Hm].
  destruct (Location (UserExtra_User u)) as [s v]. cbn in Hv, Hs.
  rewrite Hv, (Hs eq_refl). reflexivity.
Defined.

Lemma GetUserEventData_agrees_with_GetUsersExtra_witness :
  a_id (mkActivist 3 "Bob") <> 0 /\
  hd false (faults fixture_db) = false /\
  with_id (a_id (mkActivist 3 "Bob")) (activists (committed fixture_db))
  = [mkActivist 3 "Bob"] /\
  exists (u : UserExtra) (db1 : DB) (d : UserEventData) (db2 : DB),
    @GetUsersExtra testEnv 3 fixture_db = Returns ([u], None) db1 /\
    GetUserEventData (UserExtra_User u) fixture_db = Returns (d, None) db2 /\
    FirstEvent d = FirstEvent (UserExtra_UserEventData u) /\
    LastEvent d = LastEvent (UserExtra_UserEventData u) /\
    TotalEvents d = TotalEvents (UserExtra_UserEventData u).
Proof.
  assert (H1 : a_id (mkActivist 3 "Bob") <> 0) by discriminate.
  assert (H2 : hd false (faults fixture_db) = false) by reflexivity.
  assert (H3 : with_id (a_id (mkActivist 3 "Bob"))
                       (activists (committed fixture_db))
               = [mkActivist 3 "Bob"]) by reflexivity.
  split; [exact H1|]. split; [exact H2|]. split; [exact H3|].
  exact (@GetUserEventData_agrees_with_GetUsersExtra testEnv fixture_db
           (mkActivist 3 "Bob") H1 H2 H3).
Defined.

(** What the two queries answer for Bob, the row with id 3: two events,
    the first at 50 and the last at 100. *)
Example GetUserEventData_of_Bob :
  exists db' : DB,
    GetUserEventData (scan_User_columns false (mkActivist 3 "Bob")) fixture_db
    = Returns ({| FirstEvent := Some 50; LastEvent := Some 100;
                  TotalEvents := 2; Status := "" |}, None) db'.
Proof. eexists. vm_compute. reflexivity. Qed.

Lemma GetUsersJSON_one_record_per_row_witness :
  hd false (faults fixture_db) = false /\
  NoDup (map a_id (activists (committed fixture_db))) /\
  exists (users : list UserJSON) (db' : DB),
    @GetUsersJSON testEnv fixture_db = Returns (users, None) db' /\
    map UserJSON.ID users = [1; 2; 3; 4; 5] /\
    map UserJSON.Name users = ["Carol"; "Alice"; "Bob"; "Dave"; "Bob"] /\
    List.length users = 5%nat.
Proof.
  assert (H1 : hd false (faults fixture_db) = false) by reflexivity.
  assert (H2 : NoDup (map a_id (activists (committed fixture_db)))).
  { cbn. repeat constructor; cbn; intuition discriminate. }
  split; [exact H1|]. split; [exact H2|].
  exact (@GetUsersJSON_one_record_per_row testEnv fixture_db H1 H2).
Defined.

Lemma GetUserJSON_existing_id_witness :
  3 <> 0 /\
  hd false (faults fixture_db) = false /\
  with_id 3 (activists (committed fixture_db)) = [mkActivist 3 "Bob"] /\
  exists (j : UserJSON) (db' : DB),
    @GetUserJSON testEnv 3 fixture_db = Returns (j, None) db' /\
    UserJSON.ID j = 3 /\
    UserJSON.Name j = "Bob" /\
    UserJSON.Location j = "".
Proof.
  assert (H1 : 3 <> 0) by discriminate.
  assert (H2 : hd false (faults fixture_db) = false) by reflexivity.
  assert (H3 : with_id 3 (activists (committed fixture_db)) = [mkActivist 3 "Bob"])
    by reflexivity.
  split; [exact H1|]. split; [exact H2|]. split; [exact H3|].
  destruct (@GetUserJSON_existing_id testEnv fixture_db 3 (mkActivist 3 "Bob") []
              H1 H2 H3)
    as (j & db' & E & Hi & Hn & _ & _ & _ & _ & Hl & _).
  exists j, db'. repeat split; assumption.
Defined.

Lemma getUserRange_pages_compose_witness :
  hd false (faults fixture_db) = false /\
  0 < 2 /\
  name_of page_last <> "" /\
  exists db1 : DB,
    getUserRange {| opt_Name := ""; opt_Limit := 2; opt_Order := ascOrder |}
                 fixture_db
    = Returns (page_front ++ [page_last], None) db1 /\
    exists (page2 all : list UserExtra) (db2 db3 : DB),
      getUserRange {| opt_Name := name_of page_last; opt_Limit := 0;
                      opt_Order := ascOrder |} fixture_db
      = Returns (page2, None) db2 /\
      getUserRange {| opt_Name := ""; opt_Limit := 0; opt_Order := ascOrder |}
                   fixture_db
      = Returns (all, None) db3 /\
      (page_front ++ [page_last]) ++ page2 = all.
Proof.
  assert (H1 : hd false (faults fixture_db) = false) by reflexivity.
  assert (H2 : 0 < 2) by lia.
  assert (H4 : name_of page_last <> "") by discriminate.
  assert (H3 : exists db1 : DB,
             getUserRange {| opt_Name := ""; opt_Limit := 2; opt_Order := ascOrder |}
                          fixture_db
             = Returns (page_front ++ [page_last], None) db1)
    by (eexists; vm_compute; reflexivity).
  split; [exact H1|]. split; [exact H2|]. split; [exact H4|].
  destruct H3 as (db1 & H3). exists db1. split; [exact H3|].
  exact (getUserRange_pages_compose fixture_db db1 ascOrder 2
           page_front page_last H1 H2 H3 H4).
Defined.

Lemma getUserRange_descending_is_reverse_witness :
  hd false (faults fixture_db) = false /\
  exists (up down : list UserExtra) (db1 db2 : DB),
    getUserRange {| opt_Name := ""; opt_Limit := 0; opt_Order := ascOrder |}
                 fixture_db
    = Returns (up, None) db1 /\
    getUserRange {| opt_Name := ""; opt_Limit := 0; opt_Order := descOrder |}
                 fixture_db
    = Returns (down, None) db2 /\
    down = rev up.
Proof.
  assert (H1 : hd false (faults fixture_db) = false) by reflexivity.
  split; [exact H1|].
  exact (getUserRange_descending_is_reverse fixture_db H1).
Defined.

Lemma GetOrCreateUser_keeps_ids_unique_witness :
  tx fixture_db = None /\
  (forall a, In a (activists (committed fixture_db)) ->
             a_id a < auto_increment fixture_db) /\
  NoDup (map a_id (activists (committed fixture_db))) /\
  exists (r : User * error) (db' : DB),
    @GetOrCreateUser testEnv "Zed" fixture_db = Returns r db' /\
    (forall a, In a (activists (committed db')) -> a_id a < auto_increment db') /\
    NoDup (map a_id (activists (committed db'))) /\
    auto_increment fixture_db <= auto_increment db'.
Proof.
  assert (H1 : tx fixture_db = None) by reflexivity.
  assert (H2 : forall a, In a (activists (committed fixture_db)) ->
                         a_id a < auto_increment fixture_db).
  { intros a Ha. cbn in Ha.
    repeat (destruct Ha as [<-|Ha]; [cbn; lia|]). destruct Ha. }
  assert (H3 : NoDup (map a_id (activists (committed fixture_db)))).
  { cbn. repeat constructor; cbn; intuition discriminate. }
  split; [exact H1|]. split; [exact H2|]. split; [exact H3|].
  exact (@GetOrCreateUser_keeps_ids_unique testEnv fixture_db "Zed" H1 H2 H3).
Defined.

Lemma GetUsersExtra_by_id_is_filtered_listing_witness :
  3 <> 0 /\
  hd false (faults fixture_db) = false /\
  exists (all one : list UserExtra) (db1 db2 : DB),
    @GetUsersExtra testEnv 0 fixture_db = Returns (all, None) db1 /\
    @GetUsersExtra testEnv 3 fixture_db = Returns (one, None) db2 /\
    one = filter (fun u => ID (UserExtra_User u) =? 3) all.
Proof.
  assert (H1 : 3 <> 0) by discriminate.
  assert (H2 : hd false (faults fixture_db) = false) by reflexivity.
  split; [exact H1|]. split; [exact H2|].
  exact (@GetUsersExtra_by_id_is_filtered_listing testEnv fixture_db 3 H1 H2).
Defined.

Lemma getUserRange_first_page_witness :
  opt_Name last_two = "" /\
  (opt_Order last_two = ascOrder \/ opt_Order last_two = descOrder) /\
  hd false (faults fixture_db) = false /\
  exists (users all : list UserExtra) (db' db'' : DB),
    getUserRange last_two fixture_db = Returns (users, None) db' /\
    getUserRange (set_Limit 0 last_two) fixture_db = Returns (all, None) db'' /\
    db' = after_call
            (OpSelect (((selectUserExtraBaseQuery
                           ++ " GROUP BY a.name ORDER BY a.name ")
                          ++ "desc ") ++ " LIMIT ? ")%string [ArgInt 2])
            fixture_db /\
    users = firstn 2 all /\
    StronglySorted (in_order descOrder) all /\
    (forall n : string,
        In n (map name_of all) <-> In n (map a_name (activists fixture))) /\
    Forall (fun u =>
              exists (a : Activist) (others : list Activist),
                named (name_of u) (activists fixture) = a :: others /\
                u = merged_record fixture a others)
           all /\
    (NoDup (map a_name (activists fixture)) ->
     Permutation (map UserExtra_User all)
                 (map (scan_User_columns true) (activists fixture))).
Proof.
  assert (H1 : opt_Name last_two = "") by reflexivity.
  assert (H2 : opt_Order last_two = ascOrder \/ opt_Order last_two = descOrder)
    by (right; reflexivity).
  assert (H3 : hd false (faults fixture_db) = false) by reflexivity.
  split; [exact H1|]. split; [exact H2|]. split; [exact H3|].
  exact (getUserRange_first_page fixture_db last_two H1 H2 H3).
Defined.

(** The first page at work: the last two names of the fixture in
    descending order, each record with the columns of its row. *)
Example getUserRange_last_two_of_fixture :
  exists db' : DB,
    getUserRange last_two fixture_db
    = Returns ([merged_record fixture (mkActivist 4 "Dave") [];
                merged_record fixture (mkActivist 1 "Carol") []], None) db'.
Proof. eexists. vm_compute. reflexivity. Qed.

(** Rows that share a name are one record: in the unlimited ascending
    listing the two rows named Bob come back as the record of the first
    of them, with the three events of both. *)
Example getUserRange_merges_same_name :
  (exists db' : DB,
      getUserRange {| opt_Name := ""; opt_Limit := 0; opt_Order := ascOrder |}
                   fixture_db
      = Returns ([merged_record fixture (mkActivist 2 "Alice") [];
                  merged_record fixture (mkActivist 3 "Bob") [mkActivist 5 "Bob"];
                  merged_record fixture (mkActivist 1 "Carol") [];
                  merged_record fixture (mkActivist 4 "Dave") []], None) db') /\
  ID (UserExtra_User
        (merged_record fixture (mkActivist 3 "Bob") [mkActivist 5 "Bob"])) = 3 /\
  TotalEvents
    (UserExtra_UserEventData
       (merged_record fixture (mkActivist 3 "Bob") [mkActivist 5 "Bob"])) = 3.
Proof.
  split; [eexists; vm_compute; reflexivity|]. split; reflexivity.
Qed.
